(** * common-utils-fetch: the request pipeline and its interceptor registry

    A shallow embedding of [src/interceptorManager.ts] and of the
    [CommonRequest] class of [src/index.ts], followed by the properties of
    the pipeline: interceptor registry invariants, request normalisation,
    the retry loop, cancellation classification and the two progress paths.

    Conventions.
    - A JavaScript [number] that the code uses as a counter, a duration or a
      status is a [Z]; identifiers handed out by the registry are [nat]
      (the counter starts at 0 and is only ever incremented).
    - An [async] function is a function in the [Task] monad: it threads the
      state of the outside world (clock, transport, trace of calls) and
      settles as fulfilled, rejected, or not at all.
    - A variable captured and assigned by a callback ([newCtx], [res]) is the
      accumulator of the traversal that runs the callback. *)

From stdpp Require Import gmap strings list fin_maps sorting pretty.
From Stdlib Require Import ZArith Lia.
From Stdlib.Strings Require Import Ascii Byte.

Set Warnings "-register-all".

Open Scope Z_scope.

(* ===================================================================== *)
(** ** Strings *)
(* ===================================================================== *)

Definition dquote : string := String (Ascii.ascii_of_nat 34) EmptyString.
Definition backslash : string := String (Ascii.ascii_of_nat 92) EmptyString.

Definition ascii_lower (c : ascii) : ascii :=
  let n := Ascii.nat_of_ascii c in
  if ((65 <=? n)%nat && (n <=? 90)%nat)%bool then Ascii.ascii_of_nat (n + 32) else c.

Definition ascii_upper (c : ascii) : ascii :=
  let n := Ascii.nat_of_ascii c in
  if ((97 <=? n)%nat && (n <=? 122)%nat)%bool then Ascii.ascii_of_nat (n - 32) else c.

Fixpoint string_map (f : ascii -> ascii) (s : string) : string :=
  match s with
  | EmptyString => EmptyString
  | String c r => String (f c) (string_map f r)
  end.

Definition toLowerCase : string -> string := string_map ascii_lower.
Definition toUpperCase : string -> string := string_map ascii_upper.

(** [hay.includes(needle)] *)
Fixpoint includes (needle hay : string) : bool :=
  String.prefix needle hay ||
  match hay with
  | EmptyString => false
  | String _ r => includes needle r
  end.

Fixpoint join (sep : string) (l : list string) : string :=
  match l with
  | [] => ""
  | [x] => x
  | x :: r => x +:+ sep +:+ join sep r
  end.

Definition is_space (c : ascii) : bool :=
  let n := Ascii.nat_of_ascii c in
  ((n =? 32)%nat || ((9 <=? n)%nat && (n <=? 13)%nat))%bool.

Fixpoint trimStart (s : string) : string :=
  match s with
  | String c r => if is_space c then trimStart r else s
  | EmptyString => EmptyString
  end.

Definition trim (s : string) : string :=
  String.rev (trimStart (String.rev (trimStart s))).

(** [s.split(c)] for a one-character separator: never an empty list. *)
Fixpoint split_on (sep : ascii) (s : string) : list string :=
  match s with
  | EmptyString => [""]
  | String c r =>
      if Ascii.eqb c sep then "" :: split_on sep r
      else match split_on sep r with
           | [] => [String c ""]
           | x :: xs => String c x :: xs
           end
  end.

(* ===================================================================== *)
(** ** JavaScript values that travel as a request body *)
(* ===================================================================== *)

(** The body of a request ([data], [body], [bodyCopy]) is typed [any]. The
    universe below holds the values the code tells apart: primitives, plain
    structured values, and the platform classes it tests with [instanceof].
    Functions and symbols, which no transport accepts as a body, are left
    out. Numbers are integers. *)
Inductive JsValue : Type :=
| JUndefined
| JNull
| JBool (b : bool)
| JNumber (n : Z)
| JString (s : string)
| JObject (fields : list (string * JsValue))
| JArray (items : list JsValue)
| JFormData (entries : list (string * string))
| JURLSearchParams (entries : list (string * string))
| JBlob (type : string) (bytes : list byte)
| JArrayBuffer (bytes : list byte)
| JTypedArray (bytes : list byte)
| JReadableStream (chunks : list (list byte)).

Inductive JsType := TUndefined | TObject | TBoolean | TNumber | TString.

Definition typeof (v : JsValue) : JsType :=
  match v with
  | JUndefined => TUndefined
  | JBool _ => TBoolean
  | JNumber _ => TNumber
  | JString _ => TString
  | _ => TObject
  end.

Definition JsType_eqb (a b : JsType) : bool :=
  match a, b with
  | TUndefined, TUndefined | TObject, TObject | TBoolean, TBoolean
  | TNumber, TNumber | TString, TString => true
  | _, _ => false
  end.

(** Truthiness, as [if (v)] and [!v] see it. *)
Definition truthy (v : JsValue) : bool :=
  match v with
  | JUndefined | JNull => false
  | JBool b => b
  | JNumber n => negb (n =? 0)
  | JString s => negb (String.eqb s "")
  | _ => true
  end.

Definition is_undefined (v : JsValue) : bool :=
  match v with JUndefined => true | _ => false end.
Definition instanceof_FormData (v : JsValue) : bool :=
  match v with JFormData _ => true | _ => false end.
Definition instanceof_URLSearchParams (v : JsValue) : bool :=
  match v with JURLSearchParams _ => true | _ => false end.
Definition instanceof_Blob (v : JsValue) : bool :=
  match v with JBlob _ _ => true | _ => false end.
Definition instanceof_ArrayBuffer (v : JsValue) : bool :=
  match v with JArrayBuffer _ => true | _ => false end.
Definition ArrayBuffer_isView (v : JsValue) : bool :=
  match v with JTypedArray _ => true | _ => false end.
Definition instanceof_ReadableStream (v : JsValue) : bool :=
  match v with JReadableStream _ => true | _ => false end.

(** *** [JSON.stringify] *)

Definition hex_digit (n : nat) : ascii :=
  Ascii.ascii_of_nat (if (n <? 10)%nat then 48 + n else 87 + n).

Definition json_escape_char (c : ascii) : string :=
  let n := Ascii.nat_of_ascii c in
  if (n =? 34)%nat then backslash +:+ dquote
  else if (n =? 92)%nat then backslash +:+ backslash
  else if (n =? 8)%nat then backslash +:+ "b"
  else if (n =? 9)%nat then backslash +:+ "t"
  else if (n =? 10)%nat then backslash +:+ "n"
  else if (n =? 12)%nat then backslash +:+ "f"
  else if (n =? 13)%nat then backslash +:+ "r"
  else if (n <? 32)%nat then
    backslash +:+ "u00" +:+ String (hex_digit (n / 16)) (String (hex_digit (n mod 16)) "")
  else String c "".

Fixpoint json_escape (s : string) : string :=
  match s with
  | EmptyString => ""
  | String c r => json_escape_char c +:+ json_escape r
  end.

Definition json_quote (s : string) : string := dquote +:+ json_escape s +:+ dquote.

Fixpoint indexed_from {A} (i : nat) (l : list A) : list (nat * A) :=
  match l with
  | [] => []
  | x :: r => (i, x) :: indexed_from (S i) r
  end.

(** [None] is [undefined] (the value is not serialisable on its own). *)
Fixpoint stringify (v : JsValue) : option string :=
  match v with
  | JUndefined => None
  | JNull => Some "null"
  | JBool b => Some (if b then "true" else "false")
  | JNumber n => Some (pretty n)
  | JString s => Some (json_quote s)
  | JObject fields =>
      Some ("{" +:+ join ","
        ((fix members (fs : list (string * JsValue)) : list string :=
            match fs with
            | [] => []
            | (k, x) :: r =>
                match stringify x with
                | Some t => (json_quote k +:+ ":" +:+ t) :: members r
                | None => members r
                end
            end) fields) +:+ "}")
  | JArray items =>
      Some ("[" +:+ join ","
        ((fix elements (xs : list JsValue) : list string :=
            match xs with
            | [] => []
            | x :: r => default "null" (stringify x) :: elements r
            end) items) +:+ "]")
  | JTypedArray bytes =>
      Some ("{" +:+ join ","
        (map (fun ib : nat * byte =>
                json_quote (pretty (Z.of_nat (fst ib))) +:+ ":" +:+
                pretty (Z.of_N (Byte.to_N (snd ib))))
             (indexed_from 0 bytes)) +:+ "}")
  | JFormData _ | JURLSearchParams _ | JBlob _ _ | JArrayBuffer _
  | JReadableStream _ => Some "{}"
  end.

Definition JSON_stringify (v : JsValue) : JsValue :=
  match stringify v with
  | Some s => JString s
  | None => JUndefined
  end.

(** [structuredClone]: a deep copy. Values here carry no identity, so the
    copy of a value is that value; the code only clones primitives (see
    [isBodyReusable]), which the platform never refuses to clone. *)
Definition structuredClone (v : JsValue) : JsValue := v.

(* ===================================================================== *)
(** ** Errors and asynchronous tasks *)
(* ===================================================================== *)

Record JsError := mkError { name : string; message : string }.

(** What a [throw] carries: an error object, or [null] ([lastError] before
    any attempt). *)
Definition Thrown := option JsError.

Inductive Settled (A : Type) : Type :=
| Fulfilled (a : A)
| Rejected (e : Thrown)
| Pending      (* the promise never settles *)
| OutOfFuel.   (* the model's loop budget ran out; excluded by [retryLoop_fuel_enough] below *)
Arguments Fulfilled {A} a.
Arguments Rejected {A} e.
Arguments Pending {A}.
Arguments OutOfFuel {A}.

Definition Task (W A : Type) : Type := W -> Settled A * W.

Definition ret {W A} (a : A) : Task W A := fun w => (Fulfilled a, w).
Definition throw {W A} (e : Thrown) : Task W A := fun w => (Rejected e, w).
Definition never {W A} : Task W A := fun w => (Pending, w).

Definition bind {W A B} (t : Task W A) (k : A -> Task W B) : Task W B :=
  fun w =>
    match t w with
    | (Fulfilled a, w') => k a w'
    | (Rejected e, w') => (Rejected e, w')
    | (Pending, w') => (Pending, w')
    | (OutOfFuel, w') => (OutOfFuel, w')
    end.

(** How a callback handed to the library ends: it returns (or resolves
    with) a value, or throws (or rejects). A callback whose promise stays
    pending is not among the callbacks of this model. *)
Inductive Completion (A : Type) : Type :=
| Returns (a : A)
| Throws (e : Thrown).
Arguments Returns {A} a.
Arguments Throws {A} e.

(** [await callback(...)] *)
Definition complete {W A} (c : Completion A) : Task W A :=
  match c with
  | Returns a => ret a
  | Throws e => throw e
  end.

(** [try { t } catch (e) { h e }] *)
Definition try_catch {W A} (t : Task W A) (h : Thrown -> Task W A) : Task W A :=
  fun w =>
    match t w with
    | (Rejected e, w') => h e w'
    | r => r
    end.

Declare Scope task_scope.
Delimit Scope task_scope with task.
Notation "'await' x <- t ;; k" := (bind t (fun x => k))
  (at level 100, x name, t at level 99, k at level 200, right associativity)
  : task_scope.
Notation "'run' t ;; k" := (bind t (fun _ => k))
  (at level 100, t at level 99, k at level 200, right associativity)
  : task_scope.
Open Scope task_scope.

(* ===================================================================== *)
(** ** [InterceptorManager<T>] (src/interceptorManager.ts) *)
(* ===================================================================== *)

Module InterceptorManager.
Section manager.
Context {T : Type}.

Record t := mk {
  interceptors : gmap nat T;     (* Map<number, T> *)
  interceptorIds : list nat;     (* number[] *)
  nextId : nat
}.

Definition new : t :=
  {| interceptors := ∅; interceptorIds := []; nextId := 0%nat |}.

(** [use(interceptor)]: the id handed out and the registry afterwards. *)
Definition use (interceptor : T) (m : t) : nat * t :=
  let id := nextId m in
  (id, {| interceptors := <[id := interceptor]> (interceptors m);
          interceptorIds := interceptorIds m ++ [id];
          nextId := S id |}).

Definition eject (id : nat) (m : t) : t :=
  {| interceptors := delete id (interceptors m);
     interceptorIds := filter (fun i => i ≠ id) (interceptorIds m);
     nextId := nextId m |}.

Definition size (m : t) : nat := base.size (interceptors m).

(** The body shared by both traversals: walk [ids], skip an id the map no
    longer holds, [await fn(interceptor)] otherwise. [acc] stands for the
    variables the callback captures and assigns. *)
Fixpoint walk {W S} (m : t) (fn : T -> S -> Task W S) (ids : list nat) (acc : S)
  : Task W S :=
  match ids with
  | [] => ret acc
  | id :: rest =>
      match interceptors m !! id with
      | None => walk m fn rest acc
      | Some interceptor =>
          await acc' <- fn interceptor acc ;; walk m fn rest acc'
      end
  end.

Definition forEachAsync {W S} (m : t) (fn : T -> S -> Task W S) (acc : S)
  : Task W S :=
  walk m fn (interceptorIds m) acc.

(** The index runs from [length - 1] down to 0. *)
Definition forEachReverseAsync {W S} (m : t) (fn : T -> S -> Task W S) (acc : S)
  : Task W S :=
  walk m fn (rev (interceptorIds m)) acc.

End manager.
Arguments t : clear implicits.
End InterceptorManager.

(* ===================================================================== *)
(** ** Data model of src/index.ts *)
(* ===================================================================== *)

(** [Headers]: header names are case-insensitive and kept lower-case;
    [HeadersInit] is the list of pairs it is built from. *)
Definition Headers := list (string * string).

Definition header_is (key : string) (kv : string * string) : bool :=
  String.eqb (fst kv) (toLowerCase key).

Definition Headers_new (init : list (string * string)) : Headers :=
  map (fun kv => (toLowerCase (fst kv), snd kv)) init.

(** [h.get(key)]: [None] is [null]; several values are joined. *)
Definition Headers_get (h : Headers) (key : string) : option string :=
  match map snd (List.filter (header_is key) h) with
  | [] => None
  | vs => Some (join ", " vs)
  end.

Definition Headers_set (h : Headers) (key value : string) : Headers :=
  List.filter (fun kv => negb (header_is key kv)) h ++ [(toLowerCase key, value)].

(** An [AbortSignal] is known by the instant (ms on the world's clock) at
    which it fires, if it ever does. *)
Record AbortSignal := { abortAt : option Z }.

Definition aborted (s : AbortSignal) (now : Z) : bool :=
  match abortAt s with
  | Some t => t <=? now
  | None => false
  end.

(** [new AbortController().signal] that nobody ever aborts. *)
Definition fresh_signal : AbortSignal := {| abortAt := None |}.

(** A progress callback is user code; it is known by a label, and each of
    its invocations is recorded in the trace of the world. *)
Definition ProgressCallback := nat.

(** [RequestOptions]: every property is optional. [None] (or [JUndefined]
    for the three body properties) is a property that is absent, or that
    the object holds with the value [undefined]: [undefined_keys] lists the
    keys, by their JavaScript names, that it holds so. A key listed there
    whose property has a value counts as having that value. *)
Record RequestOptions := {
  requestType : option string;
  responseType : option string;
  timeout : option Z;
  retries : option Z;
  retryDelay : option Z;
  onUploadProgress : option ProgressCallback;
  onDownloadProgress : option ProgressCallback;
  signal : option AbortSignal;
  params : option (list (string * string));
  data : JsValue;
  body : JsValue;
  bodyCopy : JsValue;
  method : option string;                 (* from RequestInit *)
  headers : option Headers;               (* from RequestInit *)
  options_url : option string;            (* [options.url] *)
  undefined_keys : list string            (* [{ retries: undefined }] *)
}.

Definition no_options : RequestOptions :=
  {| requestType := None; responseType := None; timeout := None; retries := None;
     retryDelay := None; onUploadProgress := None; onDownloadProgress := None;
     signal := None; params := None; data := JUndefined; body := JUndefined;
     bodyCopy := JUndefined; method := None; headers := None; options_url := None;
     undefined_keys := [] |}.

Definition set_headers (h : Headers) (o : RequestOptions) : RequestOptions :=
  {| requestType := requestType o; responseType := responseType o;
     timeout := timeout o; retries := retries o; retryDelay := retryDelay o;
     onUploadProgress := onUploadProgress o; onDownloadProgress := onDownloadProgress o;
     signal := signal o; params := params o; data := data o; body := body o;
     bodyCopy := bodyCopy o; method := method o; headers := Some h;
     options_url := options_url o; undefined_keys := undefined_keys o |}.

Definition set_body (b : JsValue) (o : RequestOptions) : RequestOptions :=
  {| requestType := requestType o; responseType := responseType o;
     timeout := timeout o; retries := retries o; retryDelay := retryDelay o;
     onUploadProgress := onUploadProgress o; onDownloadProgress := onDownloadProgress o;
     signal := signal o; params := params o; data := data o; body := b;
     bodyCopy := bodyCopy o; method := method o; headers := headers o;
     options_url := options_url o; undefined_keys := undefined_keys o |}.

Definition set_bodyCopy (b : JsValue) (o : RequestOptions) : RequestOptions :=
  {| requestType := requestType o; responseType := responseType o;
     timeout := timeout o; retries := retries o; retryDelay := retryDelay o;
     onUploadProgress := onUploadProgress o; onDownloadProgress := onDownloadProgress o;
     signal := signal o; params := params o; data := data o; body := body o;
     bodyCopy := b; method := method o; headers := headers o;
     options_url := options_url o; undefined_keys := undefined_keys o |}.

Definition set_signal (s : AbortSignal) (o : RequestOptions) : RequestOptions :=
  {| requestType := requestType o; responseType := responseType o;
     timeout := timeout o; retries := retries o; retryDelay := retryDelay o;
     onUploadProgress := onUploadProgress o; onDownloadProgress := onDownloadProgress o;
     signal := Some s; params := params o; data := data o; body := body o;
     bodyCopy := bodyCopy o; method := method o; headers := headers o;
     options_url := options_url o; undefined_keys := undefined_keys o |}.

Definition set_options_url (u : string) (o : RequestOptions) : RequestOptions :=
  {| requestType := requestType o; responseType := responseType o;
     timeout := timeout o; retries := retries o; retryDelay := retryDelay o;
     onUploadProgress := onUploadProgress o; onDownloadProgress := onDownloadProgress o;
     signal := signal o; params := params o; data := data o; body := body o;
     bodyCopy := bodyCopy o; method := method o; headers := headers o;
     options_url := Some u; undefined_keys := undefined_keys o |}.

Definition set_timeout_option (t : Z) (o : RequestOptions) : RequestOptions :=
  {| requestType := requestType o; responseType := responseType o;
     timeout := Some t; retries := retries o; retryDelay := retryDelay o;
     onUploadProgress := onUploadProgress o; onDownloadProgress := onDownloadProgress o;
     signal := signal o; params := params o; data := data o; body := body o;
     bodyCopy := bodyCopy o; method := method o; headers := headers o;
     options_url := options_url o; undefined_keys := undefined_keys o |}.

Definition or_else {A} (a b : option A) : option A :=
  match a with Some _ => a | None => b end.

(** Whether [o] holds [key] with the value [undefined]. *)
Definition given_undefined (key : string) (o : RequestOptions) : bool :=
  existsb (String.eqb key) (undefined_keys o).

(** One property of [{ ...a, ...b }]: that of [b] when [b] holds the key,
    with a value or with [undefined]; that of [a] otherwise. *)
Definition spread_key {A} (key : string) (b : RequestOptions) (vb va : option A)
  : option A :=
  match vb with
  | Some _ => vb
  | None => if given_undefined key b then None else va
  end.

Definition spread_value (key : string) (b : RequestOptions) (vb va : JsValue)
  : JsValue :=
  if is_undefined vb then (if given_undefined key b then JUndefined else va) else vb.

(** [{ ...a, ...b }]: a property of [b] wins when [b] holds its key, also
    when it holds it with the value [undefined]. *)
Definition spread (a b : RequestOptions) : RequestOptions :=
  {| requestType := spread_key "requestType" b (requestType b) (requestType a);
     responseType := spread_key "responseType" b (responseType b) (responseType a);
     timeout := spread_key "timeout" b (timeout b) (timeout a);
     retries := spread_key "retries" b (retries b) (retries a);
     retryDelay := spread_key "retryDelay" b (retryDelay b) (retryDelay a);
     onUploadProgress :=
       spread_key "onUploadProgress" b (onUploadProgress b) (onUploadProgress a);
     onDownloadProgress :=
       spread_key "onDownloadProgress" b (onDownloadProgress b) (onDownloadProgress a);
     signal := spread_key "signal" b (signal b) (signal a);
     params := spread_key "params" b (params b) (params a);
     data := spread_value "data" b (data b) (data a);
     body := spread_value "body" b (body b) (body a);
     bodyCopy := spread_value "bodyCopy" b (bodyCopy b) (bodyCopy a);
     method := spread_key "method" b (method b) (method a);
     headers := spread_key "headers" b (headers b) (headers a);
     options_url := spread_key "url" b (options_url b) (options_url a);
     undefined_keys := undefined_keys b ++ undefined_keys a |}.

Record RequestContext := { url : string; options : RequestOptions }.

(** [Partial<RequestContext>], what a request interceptor may return. *)
Record PartialContext := {
  partial_url : option string;
  partial_options : option RequestOptions
}.

Module Response.
(** A body is a stream of chunks; [None] is a [null] body. *)
Record t := mk {
  status : Z;
  statusText : string;
  headers : Headers;
  body : option (list (list byte))
}.

Definition ok (r : t) : bool := (200 <=? status r) && (status r <=? 299).

(** [new Response(stream)] *)
Definition of_stream (s : list (list byte)) : t :=
  {| status := 200; statusText := ""; headers := []; body := Some s |}.

(** [new Response(text, { status, statusText, headers })]: a text body
    brings its content type when the headers give none. *)
Definition of_text (text : string) (st : Z) (stText : string)
           (init : list (string * string)) : t :=
  let h := Headers_new init in
  {| status := st; statusText := stText;
     headers := match Headers_get h "Content-Type" with
                | Some _ => h
                | None => h ++ [("content-type", "text/plain;charset=UTF-8")]
                end;
     body := Some [String.list_byte_of_string text] |}.

(** [stream.tee()]: two readable copies of one stream. *)
Definition tee (s : list (list byte)) : list (list byte) * list (list byte) := (s, s).
End Response.


(* ===================================================================== *)
(** ** The platform: clock, transports, trace *)
(* ===================================================================== *)

(** How one call of the transport ends when nothing aborts it. The
    transports of this model answer every call, with a response or an
    error: a call that never answers is not among them, and what is proved
    of a request is proved of the requests whose calls are answered. *)
Inductive FetchResult :=
| Resolves (r : Response.t)
| Rejects (e : JsError).

Record XhrRequest := {
  xhr_method : string;
  xhr_url : string;
  xhr_requestHeaders : list (string * string);
  xhr_body : JsValue;
  xhr_timeout : Z
}.

Inductive XhrCompletion :=
| XhrLoad (status : Z) (statusText responseText allResponseHeaders : string)
| XhrNetworkError.

(** One upload progress event: instant after [send], [lengthComputable],
    [loaded], [total]. *)
Record XhrProgressEvent := {
  pe_at : Z; lengthComputable : bool; loaded : Z; total : Z
}.

(** How the [k]-th exchange goes. When [send] throws, the [catch] block
    assigns [name] on the value thrown: [name_assignment_fails] is [None]
    when that value is an ordinary error object, and [Some m] when the
    assignment itself throws (a [DOMException], whose [name] has a getter
    only, or a primitive), [m] being the message of the engine's
    [TypeError]. *)
Record XhrBehaviour := {
  send_throws : bool;
  name_assignment_fails : option string;
  upload_events : list XhrProgressEvent;
  xhr_latency : Z;
  completion : XhrCompletion
}.

(** What lies outside the code: the k-th call of each transport takes some
    time and ends in some way, and the runtime parses JSON and builds URLs. *)
Record Platform := {
  fetch_behaviour : nat -> string -> RequestOptions -> Z * FetchResult;
  xhr_behaviour : nat -> XhrRequest -> XhrBehaviour;
  JSON_parse : string -> option JsValue;                      (* [None]: SyntaxError *)
  URLSearchParams_sorted : list (string * string) -> string;  (* entries sorted, then [toString()] *)
  URL_append : string -> list (string * string) -> string     (* [new URL(u, origin)] with the entries appended *)
}.

Inductive Progress :=
| Fraction (num den : Z)     (* [num / den] *)
| MinusOne.                  (* [-1]: total unknown *)

Inductive Event :=
| EvFetch (resource : string) (init : RequestOptions)
| EvXhrSend (x : XhrRequest)
| EvDelay (ms : Z)
| EvDownloadProgress (cb : ProgressCallback) (finished : Z) (total : option Z) (progress : Progress)
| EvUploadProgress (cb : ProgressCallback) (finished total : Z) (progress : option Z).

Record World := {
  now : Z;
  platform : Platform;
  trace : list Event          (* oldest first *)
}.

Definition log (e : Event) (w : World) : World :=
  {| now := now w; platform := platform w; trace := trace w ++ [e] |}.

Definition advance_to (t : Z) (w : World) : World :=
  {| now := Z.max (now w) t; platform := platform w; trace := trace w |}.

Definition is_fetch (e : Event) : bool :=
  match e with EvFetch _ _ => true | _ => false end.
Definition is_xhr_send (e : Event) : bool :=
  match e with EvXhrSend _ => true | _ => false end.
Definition is_delay (e : Event) : bool :=
  match e with EvDelay _ => true | _ => false end.

Definition fetch_calls (tr : list Event) : nat := length (List.filter is_fetch tr).
Definition xhr_sends (tr : list Event) : nat := length (List.filter is_xhr_send tr).
Definition delays (tr : list Event) : nat := length (List.filter is_delay tr).

(** Transport attempts of either kind. *)
Definition transport_attempts (tr : list Event) : nat :=
  (fetch_calls tr + xhr_sends tr)%nat.

(** The [DOMException] of an aborted [fetch]. *)
Definition fetch_abort_error : JsError :=
  {| name := "AbortError"; message := "The operation was aborted." |}.

(** [fetch(resource, init)]: one transport call. It rejects with an
    [AbortError] when [init.signal] fires (or has fired) before the call
    settles, and settles as the platform says otherwise. *)
Definition fetch (resource : string) (init : RequestOptions) : Task World Response.t :=
  fun w =>
    let k := fetch_calls (trace w) in
    let '(latency, result) := fetch_behaviour (platform w) k resource init in
    let settleAt := now w + Z.max 0 latency in
    let w1 := log (EvFetch resource init) w in
    let settle :=
      match result with
      | Resolves r => (Fulfilled r, advance_to settleAt w1)
      | Rejects e => (Rejected (Some e), advance_to settleAt w1)
      end in
    match signal init with
    | Some s =>
        match abortAt s with
        | Some t =>
            if (t <=? now w) || (t <? settleAt)
            then (Rejected (Some fetch_abort_error), advance_to t w1)
            else settle
        | None => settle
        end
    | None => settle
    end.

(** [delay(ms)]: [setTimeout] resolves the promise [ms] later. *)
Definition delay (ms : Z) : Task World unit :=
  fun w => (Fulfilled tt, advance_to (now w + Z.max 0 ms) (log (EvDelay ms) w)).

(** The earlier of two optional instants. *)
Definition earliest (a b : option Z) : option Z :=
  match a, b with
  | Some x, Some y => Some (Z.min x y)
  | Some x, None => Some x
  | None, _ => b
  end.

Definition clock : Task World Z := fun w => (Fulfilled (now w), w).

Definition emit (e : Event) : Task World unit := fun w => (Fulfilled tt, log e w).

(* ===================================================================== *)
(** ** Helpers of src/index.ts *)
(* ===================================================================== *)

(** [normalizeHeaders(init)]: a [Headers] object either way. *)
Definition normalizeHeaders (init : option Headers) : Headers :=
  match init with
  | Some h => Headers_new h
  | None => Headers_new []
  end.

(** [detectContentType(body)]; [None] is [undefined]. *)
Definition detectContentType (body : JsValue) : option string :=
  if JsType_eqb (typeof body) TString then Some "text/plain;charset=UTF-8"
  else if instanceof_FormData body then None
  else if instanceof_URLSearchParams body then
    Some "application/x-www-form-urlencoded;charset=UTF-8"
  else match body with
  | JBlob type _ =>
      Some (if String.eqb type "" then "application/octet-stream" else type)
  | _ =>
      if instanceof_ArrayBuffer body || ArrayBuffer_isView body then
        Some "application/octet-stream"
      else if JsType_eqb (typeof body) TObject then Some "application/json"
      else None
  end.

(** [isBodyReusable(body)] *)
Definition isBodyReusable (body : JsValue) : bool :=
  if negb (truthy body) then true
  else if JsType_eqb (typeof body) TString then true
  else if instanceof_URLSearchParams body then true
  else if instanceof_FormData body then true
  else if instanceof_Blob body then true
  else if instanceof_ArrayBuffer body || ArrayBuffer_isView body then true
  else if JsType_eqb (typeof body) TObject then true
  else false.

(** [headerStr.split(/\r?\n/)] *)
Definition strip_cr (s : string) : string :=
  match String.rev s with
  | String c r => if (Ascii.nat_of_ascii c =? 13)%nat then String.rev r else s
  | EmptyString => s
  end.

Fixpoint strip_cr_but_last (l : list string) : list string :=
  match l with
  | [] => []
  | [x] => [x]
  | x :: r => strip_cr x :: strip_cr_but_last r
  end.

Definition split_lines (s : string) : list string :=
  strip_cr_but_last (split_on (Ascii.ascii_of_nat 10) s).

(** [record[key] = value] on a plain object. *)
Fixpoint record_set (key value : string) (r : list (string * string))
  : list (string * string) :=
  match r with
  | [] => [(key, value)]
  | (k, v) :: rest =>
      if String.eqb k key then (k, value) :: rest
      else (k, v) :: record_set key value rest
  end.

(** [parseXHRHeaders(headerStr)] *)
Definition parseXHRHeaders (headerStr : string) : list (string * string) :=
  if String.eqb headerStr "" then []
  else
    fold_left
      (fun hs line =>
         match split_on ":" line with
         | key :: rest =>
             if String.eqb key "" then hs
             else record_set (trim key) (trim (join ":" rest)) hs
         | [] => hs
         end)
      (split_lines headerStr) [].

(** [parseInt(s, 10)]; [None] is [NaN]. *)
Definition digit_of (c : ascii) : option Z :=
  let n := Ascii.nat_of_ascii c in
  if ((48 <=? n)%nat && (n <=? 57)%nat)%bool then Some (Z.of_nat (n - 48)) else None.

Fixpoint parse_digits (s : string) (acc : option Z) : option Z :=
  match s with
  | String c r =>
      match digit_of c with
      | Some d => parse_digits r (Some (10 * default 0 acc + d))
      | None => acc
      end
  | EmptyString => acc
  end.

Definition parseInt10 (s : string) : option Z :=
  match trimStart s with
  | String c r =>
      if (Ascii.nat_of_ascii c =? 45)%nat then Z.opp <$> parse_digits r None
      else if (Ascii.nat_of_ascii c =? 43)%nat then parse_digits r None
      else parse_digits (String c r) None
  | EmptyString => None
  end.

(** [String(v)], the text a non-string body is sent as. *)
Fixpoint ToString (v : JsValue) : string :=
  match v with
  | JUndefined => "undefined"
  | JNull => "null"
  | JBool b => if b then "true" else "false"
  | JNumber n => pretty n
  | JString s => s
  | JArray items =>
      join ","
        ((fix elements (xs : list JsValue) : list string :=
            match xs with
            | [] => []
            | x :: r =>
                (match x with
                 | JUndefined | JNull => ""
                 | _ => ToString x
                 end) :: elements r
            end) items)
  | JFormData _ => "[object FormData]"
  | JURLSearchParams _ => "[object URLSearchParams]"
  | JBlob _ _ => "[object Blob]"
  | JArrayBuffer _ => "[object ArrayBuffer]"
  | JTypedArray bytes => join "," (map (fun b => pretty (Z.of_N (Byte.to_N b))) bytes)
  | JReadableStream _ => "[object ReadableStream]"
  | JObject _ => "[object Object]"
  end.

(** [v.status === 200] for a parsed JSON value. *)
Fixpoint property (key : string) (fields : list (string * JsValue)) : JsValue :=
  match fields with
  | [] => JUndefined
  | (k, x) :: rest =>
      (* the last binding of a repeated key wins, as in an object literal *)
      match property key rest with
      | JUndefined => if String.eqb k key then x else JUndefined
      | found => found
      end
  end.

(** [Math.round((loaded / total) * 100)]; [None] when the quotient is not a
    number ([total] is 0). *)
Definition percent (loaded total : Z) : option Z :=
  if total =? 0 then None else Some ((200 * loaded + total) / (2 * total)).

(* ===================================================================== *)
(** ** [class CommonRequest] *)
(* ===================================================================== *)

(** Interceptors are callbacks of the caller: each returns a value or
    throws. [None] is a request interceptor returning nothing. *)
Definition ReqInterceptor := RequestContext -> Completion (option PartialContext).
Definition ResInterceptor := Response.t -> Completion Response.t.

Record CommonRequest := {
  defaults : RequestOptions;
  _timeout : Z;
  interceptors_request : InterceptorManager.t ReqInterceptor;
  interceptors_response : InterceptorManager.t ResInterceptor
}.

(** [new CommonRequest(defaultParams)] *)
Definition constructor (defaultParams : RequestOptions) : CommonRequest :=
  {| defaults :=
       spread
         {| requestType := Some "json"; responseType := Some "json";
            timeout := Some 5000; retries := Some 0; retryDelay := Some 2000;
            onUploadProgress := None; onDownloadProgress := None;
            signal := None; params := None; data := JUndefined;
            body := JUndefined; bodyCopy := JUndefined; method := None;
            headers := None; options_url := None; undefined_keys := [] |}
         defaultParams;
     _timeout := 5000;
     interceptors_request := InterceptorManager.new;
     interceptors_response := InterceptorManager.new |}.

Definition get_timeout (that : CommonRequest) : Z := _timeout that.

Definition set_timeout (value : Z) (that : CommonRequest) : CommonRequest :=
  {| defaults := set_timeout_option value (defaults that);
     _timeout := value;
     interceptors_request := interceptors_request that;
     interceptors_response := interceptors_response that |}.

Definition method_is_GET (o : RequestOptions) : bool :=
  match method o with
  | Some m => String.eqb (toUpperCase m) "GET"
  | None => false
  end.

(** [a || b] on header lookups and strings: the empty string is falsy. *)
Definition nonempty (s : option string) : option string :=
  match s with
  | Some v => if String.eqb v "" then None else Some v
  | None => None
  end.

(** [normalizeRequestOptions(options)] *)
Definition normalizeRequestOptions (P : Platform) (options : RequestOptions)
  : RequestOptions :=
  let headers0 := normalizeHeaders (headers options) in
  let body0 := data options in
  let contentTypeExisting :=
    default "" (or_else (nonempty (Headers_get headers0 "Content-Type"))
                        (nonempty (Headers_get headers0 "content-type"))) in
  let contentTypeLower := toLowerCase contentTypeExisting in
  let autoCt := detectContentType body0 in
  let headers1 :=
    match nonempty autoCt with
    | Some ct =>
        if String.eqb contentTypeExisting "" then Headers_set headers0 "Content-Type" ct
        else headers0
    | None => headers0
    end in
  let options := set_headers headers1 options in
  let options := set_body body0 options in
  let shouldStringify :=
    includes "application/json" contentTypeLower &&
    negb (is_undefined body0) &&
    JsType_eqb (typeof body0) TObject &&
    negb (instanceof_FormData body0) &&
    negb (instanceof_Blob body0) &&
    negb (instanceof_ArrayBuffer body0) &&
    negb (instanceof_URLSearchParams body0) in
  let options :=
    if shouldStringify then set_body (JSON_stringify body0) options else options in
  let options :=
    if truthy (body options) && negb (isBodyReusable (body options))
    then set_bodyCopy (structuredClone (body options)) options
    else options in
  let options := set_signal (default fresh_signal (signal options)) options in
  if method_is_GET options then
    match params options with
    | Some ps => set_options_url (URL_append P (default "" (nonempty (options_url options))) ps) options
    | None => options
    end
  else options.

(** [normalizeRequestOptionsUrl(url, options)] *)
Definition normalizeRequestOptionsUrl (P : Platform) (url : string)
           (options : RequestOptions) : string :=
  if method_is_GET options then
    match params options with
    | Some ps => url +:+ "?" +:+ URLSearchParams_sorted P ps
    | None => url
    end
  else url.

(** The [catch] block shared, word for word, by [timeoutPromise] and
    [downloadWithProgress]. *)
Definition rethrow_classified {A} (userSignal : option AbortSignal) (err : Thrown)
  : Task World A :=
  match err with
  | Some e =>
      if String.eqb (name e) "AbortError" then
        await t <- clock ;;
        if match userSignal with Some s => aborted s t | None => false end
        then throw (Some {| name := "AbortError"; message := "Request aborted by user" |})
        else throw (Some {| name := "TimeoutError"; message := "Request timed out" |})
      else throw err
  | None => throw err
  end.

(** The listener part of both controllers: the derived signal fires when
    the caller's does, at once if it already has. *)
Definition follow (userSignal : option AbortSignal) (t0 : Z) : option Z :=
  match userSignal with
  | Some s => if aborted s t0 then Some t0 else abortAt s
  | None => None
  end.

(** [timeoutPromise(resource, options, timeout, userSignal)]. The timer of
    [setTimeout(..., timeout)] is a task of its own: it fires after the
    instant of the call, 1 ms later at the earliest, also for a negative
    [timeout], so a transport that settles at once settles first. *)
Definition timeoutPromise (resource : string) (options : RequestOptions)
           (timeout : Z) (userSignal : option AbortSignal) : Task World Response.t :=
  await t0 <- clock ;;
  let timer := if timeout =? 0 then None else Some (t0 + Z.max 1 timeout) in
  let controller := {| abortAt := earliest (follow userSignal t0) timer |} in
  try_catch
    (fetch resource (set_signal controller options))
    (rethrow_classified userSignal).

(** [applyRequestInterceptors(ctx)] *)
Definition applyRequestInterceptors (that : CommonRequest) (ctx : RequestContext)
  : Task World RequestContext :=
  if (InterceptorManager.size (interceptors_request that) <=? 0)%nat then ret ctx
  else
    InterceptorManager.forEachAsync (interceptors_request that)
      (fun interceptor newCtx =>
         await result <- complete (interceptor ctx) ;;
         match result with
         | Some r =>
             ret {| url := default (url newCtx) (partial_url r);
                    options := default (options newCtx) (partial_options r) |}
         | None => ret newCtx
         end)
      ctx.

(** [applyResponseInterceptors(response)] *)
Definition applyResponseInterceptors (that : CommonRequest) (response : Response.t)
  : Task World Response.t :=
  if (InterceptorManager.size (interceptors_response that) <=? 0)%nat then ret response
  else
    InterceptorManager.forEachReverseAsync (interceptors_response that)
      (fun interceptor res => complete (interceptor res))
      response.

(** The read loop of [downloadWithProgress]: one progress report per chunk
    of the metering copy. *)
Fixpoint read_progress (onDownloadProgress : ProgressCallback) (total : option Z)
         (chunks : list (list byte)) (receivedLength : Z) : Task World unit :=
  match chunks with
  | [] => ret tt
  | value :: rest =>
      let receivedLength := receivedLength + Z.of_nat (length value) in
      run emit (EvDownloadProgress onDownloadProgress receivedLength total
                  (match total with
                   | Some t => if t =? 0 then MinusOne else Fraction receivedLength t
                   | None => MinusOne
                   end)) ;;
      read_progress onDownloadProgress total rest receivedLength
  end.

(** [downloadWithProgress(url, options, onDownloadProgress)] *)
Definition downloadWithProgress (url : string) (options : RequestOptions)
           (onDownloadProgress : ProgressCallback) : Task World Response.t :=
  await t0 <- clock ;;
  let userSignal := signal options in
  let controller := {| abortAt := follow userSignal t0 |} in
  try_catch
    (await res <- fetch url (set_signal controller options) ;;
     match Response.body res with
     | Some body =>
         if Response.ok res then
           let '(progressStream, stream2) := Response.tee body in
           let contentLength := nonempty (Headers_get (Response.headers res) "Content-Length") in
           let total := match contentLength with
                        | Some s => parseInt10 s
                        | None => None
                        end in
           run read_progress onDownloadProgress total progressStream 0 ;;
           ret (Response.of_stream stream2)
         else
           throw (Some {| name := "Error";
                          message := "HTTP error " +:+ pretty (Response.status res) |})
     | None =>
         throw (Some {| name := "Error";
                        message := "HTTP error " +:+ pretty (Response.status res) |})
     end)
    (rethrow_classified userSignal).

(** How the exchange started by [xhr.send] ends. *)
Inductive XhrEnd :=
| EndAbort (at_ : Z)
| EndTimeout (at_ : Z)
| EndCompletion (at_ : Z).

Definition xhr_end (t0 : Z) (x : XhrRequest) (b : XhrBehaviour)
           (userSignal : option AbortSignal) : XhrEnd :=
  let settleAt := t0 + Z.max 0 (xhr_latency b) in
  let timeoutAt := if xhr_timeout x <=? 0 then None else Some (t0 + xhr_timeout x) in
  let before (t : Z) (limit : option Z) : bool :=
    match limit with Some l => t <=? l | None => true end in
  match follow userSignal t0 with
  | Some t =>
      if (t <=? t0) || ((t <? settleAt) && before t timeoutAt) then EndAbort t
      else match timeoutAt with
           | Some l => if l <? settleAt then EndTimeout l else EndCompletion settleAt
           | None => EndCompletion settleAt
           end
  | None =>
      match timeoutAt with
      | Some l => if l <? settleAt then EndTimeout l else EndCompletion settleAt
      | None => EndCompletion settleAt
      end
  end.

Definition xhr_end_at (e : XhrEnd) : Z :=
  match e with EndAbort t | EndTimeout t | EndCompletion t => t end.

(** [xhr.upload.onprogress], for the events that fire before the end. *)
Fixpoint upload_progress (onUploadProgress : ProgressCallback) (t0 endAt : Z)
         (events : list XhrProgressEvent) : Task World unit :=
  match events with
  | [] => ret tt
  | ev :: rest =>
      if (t0 + pe_at ev <=? endAt) && lengthComputable ev then
        run emit (EvUploadProgress onUploadProgress (loaded ev) (total ev)
                    (percent (loaded ev) (total ev))) ;;
        upload_progress onUploadProgress t0 endAt rest
      else upload_progress onUploadProgress t0 endAt rest
  end.

(** [xhr.onreadystatechange] once [readyState] is 4. Nothing settles the
    promise when the status is not 200 or the handler throws. *)
Definition onreadystatechange (P : Platform) (c : XhrCompletion)
  : Task World Response.t :=
  match c with
  | XhrLoad status statusText responseText allResponseHeaders =>
      if status =? 200 then
        match JSON_parse P responseText with
        | Some (JUndefined | JNull) | None => never
        | Some data =>
            let data_status :=
              match data with JObject fields => property "status" fields | _ => JUndefined end in
            match data_status with
            | JNumber 200 =>
                ret (Response.of_text responseText 200 "OK"
                       (parseXHRHeaders allResponseHeaders))
            | _ =>
                ret (Response.of_text (ToString data) status statusText
                       (parseXHRHeaders allResponseHeaders))
            end
        end
      else never
  | XhrNetworkError =>
      throw (Some {| name := "NetworkError"; message := "Network Error" |})
  end.

(** [uploadWithProgress(url, options, onUploadProgress)] *)
Definition uploadWithProgress (that : CommonRequest) (url : string)
           (options : RequestOptions) (onUploadProgress : ProgressCallback)
  : Task World Response.t :=
  match headers options with
  | None =>
      (* [headers.forEach] on [undefined], inside the promise executor;
         [options.headers] is a [Headers] object or [undefined] here: a
         plain object put there by an interceptor is not in the model *)
      throw (Some {| name := "TypeError";
                     message := "Cannot read properties of undefined (reading 'forEach')" |})
  | Some hs =>
      fun w =>
        let x := {| xhr_method := default "POST" (nonempty (method options));
                    xhr_url := url;
                    xhr_requestHeaders :=
                      List.filter (fun kv => negb (String.eqb (fst kv) "body")) hs;
                    xhr_body := body options;
                    xhr_timeout :=
                      match timeout options with
                      | Some t => if t =? 0 then get_timeout that else t
                      | None => get_timeout that
                      end |} in
        let b := xhr_behaviour (platform w) (xhr_sends (trace w)) x in
        let w1 := log (EvXhrSend x) w in
        if send_throws b then
          (* the handler renames [error], the value caught: [err] keeps the
             name of its class, and a renaming that throws leaves the
             executor with the engine's [TypeError] *)
          match name_assignment_fails b with
          | None =>
              (Rejected (Some {| name := "TypeError"; message := "Network Error" |}), w1)
          | Some m => (Rejected (Some {| name := "TypeError"; message := m |}), w1)
          end
        else
          let t0 := now w in
          let e := xhr_end t0 x b (signal options) in
          (run upload_progress onUploadProgress t0 (xhr_end_at e) (upload_events b) ;;
           fun w2 =>
             let w3 := advance_to (xhr_end_at e) w2 in
             match e with
             | EndAbort _ =>
                 (Rejected (Some {| name := "AbortError";
                                    message := "Request aborted by user" |}), w3)
             | EndTimeout _ =>
                 (Rejected (Some {| name := "TimeoutError";
                                    message := "Request timed out" |}), w3)
             | EndCompletion _ => onreadystatechange (platform w) (completion b) w3
             end) w1
  end.

(** [e && (e.name === 'AbortError' || e.name === 'TimeoutError')] *)
Definition is_cancellation (error : Thrown) : bool :=
  match error with
  | Some e => String.eqb (name e) "AbortError" || String.eqb (name e) "TimeoutError"
  | None => false
  end.

(** [options.timeout || that.timeout] *)
Definition effective_timeout (that : CommonRequest) (options : RequestOptions) : Z :=
  match timeout options with
  | Some t => if t =? 0 then get_timeout that else t
  | None => get_timeout that
  end.

(** [if (options.bodyCopy) { options.body = options.bodyCopy; }] *)
Definition reset_body (options : RequestOptions) : RequestOptions :=
  if truthy (bodyCopy options) then set_body (bodyCopy options) options
  else options.

(** The [while (attempts <= retries)] loop of [request] and the [throw]
    that follows it. [options] is the object the loop assigns [body] on;
    [fuel] bounds the number of iterations the model unrolls. *)
Fixpoint retryLoop (fuel : nat) (that : CommonRequest) (url : string)
         (options : RequestOptions) (retries retryDelay : Z)
         (attempts : Z) (lastError : Thrown) : Task World Response.t :=
  if attempts <=? retries then
    match fuel with
    | O => fun w => (OutOfFuel, w)
    | S fuel' =>
        let options := reset_body options in
        try_catch
          (await res <- timeoutPromise url options (effective_timeout that options)
                          (signal options) ;;
           await finalRes <- applyResponseInterceptors that res ;;
           ret finalRes)
          (fun error =>
             if is_cancellation error then throw error
             else if attempts >=? retries then throw error
             else
               run delay retryDelay ;;
               retryLoop fuel' that url options retries retryDelay (attempts + 1) error)
    end
  else throw lastError.

(** Iterations the loop can take from [attempts]. *)
Definition enough_fuel (retries attempts : Z) : nat :=
  Z.to_nat (retries - attempts + 1).

(** What [request] does once the interceptors have produced the context. *)
Definition dispatch (that : CommonRequest) (ctx : RequestContext)
  : Task World Response.t :=
  let url := url ctx in
  let options := options ctx in
  match onDownloadProgress options with
  | Some cb => downloadWithProgress url options cb
  | None =>
      match onUploadProgress options with
      | Some cb => uploadWithProgress that url options cb
      | None =>
          let retries := default 0 (retries options) in
          let retryDelay := default 2000 (retryDelay options) in
          retryLoop (enough_fuel retries 0) that url options retries retryDelay 0 None
      end
  end.

(** [request(urlStr, opts)] *)
Definition request (that : CommonRequest) (urlStr : string) (opts : RequestOptions)
  : Task World Response.t :=
  fun w =>
    let url := normalizeRequestOptionsUrl (platform w) urlStr opts in
    let options := normalizeRequestOptions (platform w) (spread (defaults that) opts) in
    (await ctx <- applyRequestInterceptors that {| url := url; options := options |} ;;
     dispatch that ctx) w.

(** [createRequest(new CommonRequest())]: the exported [request]. *)
Definition commonRequest : CommonRequest := constructor no_options.

(* ===================================================================== *)
(** ** Reference notions the properties are stated against *)
(* ===================================================================== *)

(** Running [fn] over a list of callbacks, one after the other. *)
Fixpoint for_each {W S T} (fn : T -> S -> Task W S) (l : list T) (acc : S)
  : Task W S :=
  match l with
  | [] => ret acc
  | x :: rest => await acc' <- fn x acc ;; for_each fn rest acc'
  end.

Module Registry.
Section history.
Context {T : Type}.

(** One call made on a registry. *)
Inductive call :=
| Use (interceptor : T)
| Eject (id : nat).

(** What a call left behind: the id [use] returned, or the id ejected. *)
Inductive entry :=
| Used (id : nat) (interceptor : T)
| Ejected (id : nat).

(** Run the calls in order on [m]; the history records each [use] with
    the id it returned. *)
Fixpoint replay (calls : list call) (m : InterceptorManager.t T)
  : list entry * InterceptorManager.t T :=
  match calls with
  | [] => ([], m)
  | Use interceptor :: rest =>
      let '(id, m') := InterceptorManager.use interceptor m in
      let '(h, m'') := replay rest m' in
      (Used id interceptor :: h, m'')
  | Eject id :: rest =>
      let '(h, m'') := replay rest (InterceptorManager.eject id m) in
      (Ejected id :: h, m'')
  end.

(** The ids [use] returned, in call order. *)
Fixpoint issued (h : list entry) : list nat :=
  match h with
  | [] => []
  | Used id _ :: rest => id :: issued rest
  | Ejected _ :: rest => issued rest
  end.

Definition ejected_later (id : nat) (h : list entry) : bool :=
  existsb (fun e => match e with Ejected j => (j =? id)%nat | Used _ _ => false end) h.

(** The registrations currently in force: those no later call ejected,
    in the order they were made. *)
Fixpoint registered (h : list entry) : list (nat * T) :=
  match h with
  | [] => []
  | Used id interceptor :: rest =>
      if ejected_later id rest then registered rest
      else (id, interceptor) :: registered rest
  | Ejected _ :: rest => registered rest
  end.

(** The callbacks a forward traversal reaches, in the order of the id
    array. *)
Definition callbacks (m : InterceptorManager.t T) : list T :=
  omap (fun id => InterceptorManager.interceptors m !! id)
       (InterceptorManager.interceptorIds m).
End history.
Arguments call : clear implicits.
Arguments entry : clear implicits.
End Registry.

(** The request chain as the specification words it: every callback is
    handed the in-flight context, as replaced by the callbacks before it. *)
Definition chain_step (interceptor : ReqInterceptor) (inflight : RequestContext)
  : Task World RequestContext :=
  await result <- complete (interceptor inflight) ;;
  match result with
  | Some r =>
      ret {| url := default (url inflight) (partial_url r);
             options := default (options inflight) (partial_options r) |}
  | None => ret inflight
  end.

Definition chain_fold (callbacks : list ReqInterceptor) (ctx : RequestContext)
  : Task World RequestContext :=
  for_each chain_step callbacks ctx.

(* ===================================================================== *)
(** ** Notions used by the statements *)
(* ===================================================================== *)

Section registry_notions.
Context {T : Type}.
Implicit Types (m : InterceptorManager.t T) (es : list (nat * T)).
Implicit Types (h : list (Registry.entry T)).

(** [es] lists, in array order, the registrations [m] holds. *)
Definition represents es m : Prop :=
  InterceptorManager.interceptorIds m = es.*1 ∧
  InterceptorManager.interceptors m = list_to_map es ∧
  StronglySorted lt es.*1 ∧
  Forall (fun id => (id < InterceptorManager.nextId m)%nat) es.*1.

Definition survives h (e : nat * T) : Prop := Registry.ejected_later e.1 h = false.

#[global] Instance survives_dec h e : Decision (survives h e).
Proof. unfold survives. apply _. Defined.
End registry_notions.

(** The instant the derived signal of [init] fires. *)
Definition fires_at (init : RequestOptions) : option Z :=
  match signal init with
  | Some s => abortAt s
  | None => None
  end.

(** The signal [timeoutPromise] hands to the transport. *)
Definition derived_signal (userSignal : option AbortSignal) (timeout t0 : Z)
  : AbortSignal :=
  {| abortAt := earliest (follow userSignal t0)
                  (if timeout =? 0 then None else Some (t0 + Z.max 1 timeout)) |}.

(** The instant the caller's signal fires, if it has one that does. *)
Definition user_fires_at (userSignal : option AbortSignal) : option Z :=
  match userSignal with
  | Some s => abortAt s
  | None => None
  end.

(** The deadline and the caller both leave the call alone until it
    settles, [latency] after [t0]. *)
Definition undisturbed (userSignal : option AbortSignal) (timeout t0 latency : Z)
  : Prop :=
  (∀ t, user_fires_at userSignal = Some t → t0 < t ∧ t0 + Z.max 0 latency ≤ t) ∧
  (timeout = 0 ∨ (0 < timeout ∧ Z.max 0 latency ≤ timeout)).

Definition user_abort_error : JsError :=
  {| name := "AbortError"; message := "Request aborted by user" |}.
Definition timeout_error : JsError :=
  {| name := "TimeoutError"; message := "Request timed out" |}.



(** The attempt of one iteration of the retry loop. *)
Definition attempt (that : CommonRequest) (url : string) (options : RequestOptions)
  : Task World Response.t :=
  timeoutPromise url (reset_body options)
    (effective_timeout that (reset_body options)) (signal (reset_body options)).

(** What a run of the retry loop leaves in the trace: one transport call per
    attempt, a delay between two attempts. *)
Fixpoint loop_events (url : string) (retryDelay : Z) (inits : list RequestOptions)
  : list Event :=
  match inits with
  | [] => []
  | init :: rest =>
      EvFetch url init ::
      match rest with
      | [] => []
      | _ => EvDelay retryDelay :: loop_events url retryDelay rest
      end
  end.

(** [init] is [options] but for the signal the attempt derived. *)
Definition sent_as (options init : RequestOptions) : Prop :=
  ∃ c, init = set_signal c options.

(** The promise has settled: it is neither pending nor out of fuel. *)
Definition settled_now {A} (r : Settled A) : Prop :=
  match r with
  | Fulfilled _ | Rejected _ => True
  | Pending | OutOfFuel => False
  end.

(** The [try] block of one iteration: the attempt, then the response
    interceptors. It settles, and leaves one transport call behind. *)
Definition try_block (that : CommonRequest) (url : string) (options : RequestOptions)
  : Task World Response.t :=
  await res <- timeoutPromise url options (effective_timeout that options)
                 (signal options) ;;
  await finalRes <- applyResponseInterceptors that res ;;
  ret finalRes.



(** [request] has normalised [urlStr] and [opts], and the request
    interceptors have returned [ctx]: the dispatch is about to start. *)
Definition prepared (that : CommonRequest) (urlStr : string) (opts : RequestOptions)
           (w : World) (ctx : RequestContext) : Prop :=
  applyRequestInterceptors that
    {| url := normalizeRequestOptionsUrl (platform w) urlStr opts;
       options := normalizeRequestOptions (platform w) (spread (defaults that) opts) |} w
  = (Fulfilled ctx, w).

(** The request goes down the direct path: no progress callback. *)
Definition direct (options : RequestOptions) : Prop :=
  onDownloadProgress options = None ∧ onUploadProgress options = None.

(** [that] with [m] as its registry of response interceptors. *)
Definition with_response_interceptors (m : InterceptorManager.t ResInterceptor)
           (that : CommonRequest) : CommonRequest :=
  {| defaults := defaults that; _timeout := _timeout that;
     interceptors_request := interceptors_request that;
     interceptors_response := m |}.

(** [request.interceptors.request.use(i)] and
    [request.interceptors.response.use(i)] *)
Definition use_request (i : ReqInterceptor) (that : CommonRequest) : CommonRequest :=
  {| defaults := defaults that; _timeout := _timeout that;
     interceptors_request := (InterceptorManager.use i (interceptors_request that)).2;
     interceptors_response := interceptors_response that |}.

Definition use_response (i : ResInterceptor) (that : CommonRequest) : CommonRequest :=
  with_response_interceptors
    (InterceptorManager.use i (interceptors_response that)).2 that.

(** The Content-Type the caller gave, as [normalizeRequestOptions] reads it
    ([contentTypeExisting]): the empty string when there is none. *)
Definition contentTypeExisting (options : RequestOptions) : string :=
  default "" (or_else (nonempty (Headers_get (normalizeHeaders (headers options)) "Content-Type"))
                      (nonempty (Headers_get (normalizeHeaders (headers options)) "content-type"))).

(** The condition [shouldStringify] of [normalizeRequestOptions], on the
    options as given. *)
Definition shouldStringify (options : RequestOptions) : bool :=
  includes "application/json" (toLowerCase (contentTypeExisting options)) &&
  negb (is_undefined (data options)) &&
  JsType_eqb (typeof (data options)) TObject &&
  negb (instanceof_FormData (data options)) &&
  negb (instanceof_Blob (data options)) &&
  negb (instanceof_ArrayBuffer (data options)) &&
  negb (instanceof_URLSearchParams (data options)).

(** The classes of body that [shouldStringify] excludes by [instanceof]. *)
Definition never_stringified (v : JsValue) : bool :=
  instanceof_FormData v || instanceof_Blob v || instanceof_ArrayBuffer v
  || instanceof_URLSearchParams v.

(** The number of [use] calls among [calls]. *)
Fixpoint uses {T} (calls : list (Registry.call T)) : nat :=
  match calls with
  | [] => 0%nat
  | Registry.Use _ :: rest => S (uses rest)
  | Registry.Eject _ :: rest => uses rest
  end.

(** The [init] of each transport call of a trace, oldest first. *)
Definition inits_sent (tr : list Event) : list RequestOptions :=
  omap (fun e => match e with EvFetch _ init => Some init | _ => None end) tr.

(** The body of each transport call of a trace, oldest first. *)
Definition bodies_sent (tr : list Event) : list JsValue := body <$> inits_sent tr.

(** The function [applyRequestInterceptors] runs on each interceptor: the
    interceptor is called on [ctx], and what it returns is merged into
    [newCtx]. *)
Definition request_step (ctx : RequestContext) (interceptor : ReqInterceptor)
           (newCtx : RequestContext) : Task World RequestContext :=
  await result <- complete (interceptor ctx) ;;
  match result with
  | Some r =>
      ret {| url := default (url newCtx) (partial_url r);
             options := default (options newCtx) (partial_options r) |}
  | None => ret newCtx
  end.

(** A progress report: neither a transport call nor a delay. *)
Definition is_progress (e : Event) : bool :=
  match e with
  | EvDownloadProgress _ _ _ _ | EvUploadProgress _ _ _ _ => true
  | _ => false
  end.

(** The snapshot normalisation takes of a body: the value itself for [true]
    and for a number other than 0, none for any other value. *)
Definition snapshot_of (v : JsValue) : option JsValue :=
  match v with
  | JBool true => Some v
  | JNumber n => if n =? 0 then None else Some v
  | _ => None
  end.

(** The bytes received once the first [k] chunks of a body have been read. *)
Definition received_after (chunks : list (list byte)) (k : nat) : Z :=
  Z.of_nat (length (concat (take k chunks))).

(** The total a download announces: the [Content-Length] header of the
    answer read as a decimal number, [None] ([NaN]) without one. *)
Definition content_length (res : Response.t) : option Z :=
  match nonempty (Headers_get (Response.headers res) "Content-Length") with
  | Some s => parseInt10 s
  | None => None
  end.

(** The report [{ finished, total, progress }] of a download: [progress] is
    [finished / total], and [-1] when the total is [NaN] or 0. *)
Definition download_report (cb : ProgressCallback) (total : option Z) (finished : Z)
  : Event :=
  EvDownloadProgress cb finished total
    (match total with
     | Some t => if t =? 0 then MinusOne else Fraction finished t
     | None => MinusOne
     end).

(** [new Error(`HTTP error ${status}`)] *)
Definition http_error (status : Z) : JsError :=
  {| name := "Error"; message := "HTTP error " +:+ pretty status |}.

(** The character [c] occurs in [s]. *)
Fixpoint has_char (c : ascii) (s : string) : bool :=
  match s with
  | EmptyString => false
  | String a r => Ascii.eqb a c || has_char c r
  end.

Definition LF : ascii := Ascii.ascii_of_nat 10.

(* ===================================================================== *)
(** ** Scenarios *)
(* ===================================================================== *)

Module Scenario.
(** The error of a [fetch] that cannot reach the network. *)
Definition network_error : JsError :=
  {| name := "TypeError"; message := "Failed to fetch" |}.

Definition idle_xhr : XhrBehaviour :=
  {| send_throws := false; name_assignment_fails := None; upload_events := []; xhr_latency := 0;
     completion := XhrNetworkError |}.

(** A platform whose [fetch] behaves as [f] says. *)
Definition platform_with (f : nat -> string -> RequestOptions -> Z * FetchResult)
  : Platform :=
  {| fetch_behaviour := f;
     xhr_behaviour := fun _ _ => idle_xhr;
     JSON_parse := fun _ => None;
     URLSearchParams_sorted := fun _ => "";
     URL_append := fun u _ => u |}.

(** Every call fails after 10 ms. *)
Definition failing : Platform :=
  platform_with (fun _ _ _ => (10, Rejects network_error)).

(** [{ status: 200, ok: true }] *)
Definition response_200 : Response.t :=
  {| Response.status := 200; Response.statusText := "OK";
     Response.headers := []; Response.body := None |}.

Definition answering (r : Response.t) : Platform :=
  platform_with (fun _ _ _ => (10, Resolves r)).

(** Every upload ends in a network error, after 10 ms. *)
Definition failing_upload : Platform :=
  {| fetch_behaviour := fun _ _ _ => (10, Rejects network_error);
     xhr_behaviour := fun _ _ =>
       {| send_throws := false; name_assignment_fails := None; upload_events := []; xhr_latency := 10;
          completion := XhrNetworkError |};
     JSON_parse := fun _ => None;
     URLSearchParams_sorted := fun _ => "";
     URL_append := fun u _ => u |}.

Definition start (P : Platform) : World := {| now := 0; platform := P; trace := [] |}.

(** [{ method, data, retries, retryDelay, onDownloadProgress, onUploadProgress }] *)
Definition opts (m : string) (d : JsValue) (r d' : option Z)
           (down up : option ProgressCallback) : RequestOptions :=
  {| requestType := None; responseType := None; timeout := None; retries := r;
     retryDelay := d'; onUploadProgress := up; onDownloadProgress := down;
     signal := None; params := None; data := d; body := JUndefined;
     bodyCopy := JUndefined; method := Some m; headers := None;
     options_url := None; undefined_keys := [] |}.

(** [request('/x', { method: 'GET', retries: 2, retryDelay: 50 })] *)
Definition get_retries_2 : RequestOptions :=
  opts "GET" JUndefined (Some 2) (Some 50) None None.

(** [request('/x', { method: 'POST', data: { a: 1 } })] *)
Definition post_a_1 : RequestOptions :=
  opts "POST" (JObject [("a", JNumber 1)]) None None None None.

Definition stream : JsValue := JReadableStream [[x01; x02]; [x03]].

(** [request('/x', { method: 'POST', data: stream, retries: 1 })] *)
Definition post_stream : RequestOptions :=
  opts "POST" stream (Some 1) None None None.

(** [request('/x', { method: 'POST', data: 'hi', retries: 1 })] *)
Definition post_text : RequestOptions :=
  opts "POST" (JString "hi") (Some 1) None None None.

(** [request('/f', { method: 'GET', retries: 3, onDownloadProgress })] *)
Definition download : RequestOptions :=
  opts "GET" JUndefined (Some 3) None (Some 0%nat) None.

(** [request('/f', { method: 'POST', data: 'hi', retries: 3, onUploadProgress })] *)
Definition upload : RequestOptions :=
  opts "POST" (JString "hi") (Some 3) None None (Some 0%nat).

(** A partial-content answer with a body of two chunks. *)
Definition response_206 : Response.t :=
  {| Response.status := 206; Response.statusText := "Partial Content";
     Response.headers := [("content-type", "video/mp4"); ("content-length", "3")];
     Response.body := Some [[x01; x02]; [x03]] |}.

(** Two request interceptors, each appending to the url it is given. *)
Definition append_to_url (suffix : string) : ReqInterceptor :=
  fun ctx => Returns (Some {| partial_url := Some (url ctx +:+ suffix);
                              partial_options := None |}).

Definition two_request_interceptors : CommonRequest :=
  use_request (append_to_url "/b") (use_request (append_to_url "/a") commonRequest).

(** A response interceptor that marks the responses it has seen. *)
Definition mark_seen : ResInterceptor :=
  fun res => Returns {| Response.status := Response.status res;
                        Response.statusText := "seen";
                        Response.headers := Response.headers res;
                        Response.body := Response.body res |}.

Definition marking : CommonRequest := use_response mark_seen commonRequest.

(** The context [request] dispatches for the options [o] on the exported
    instance, no interceptor registered. *)
Definition ctx_of (P : Platform) (urlStr : string) (o : RequestOptions)
  : RequestContext :=
  {| url := normalizeRequestOptionsUrl P urlStr o;
     options := normalizeRequestOptions P (spread (defaults commonRequest) o) |}.

(** The normalised options of [get_retries_2], with a caller's signal that
    fires 5 ms after the start. *)
Definition cancelled_at_5 : RequestOptions :=
  set_signal {| abortAt := Some 5 |} (options (ctx_of failing "/x" get_retries_2)).

(** [post_a_1] with the header [Content-Type: application/json] given. *)
Definition post_a_1_json : RequestOptions :=
  set_headers [("Content-Type", "application/json")] post_a_1.
End Scenario.

(** ** Further scenarios *)

Module Cases.
(** A transport that rejects every call with an [AbortError] of its own. *)
Definition aborting : Platform :=
  Scenario.platform_with (fun _ _ _ => (10, Rejects fetch_abort_error)).

(** A transport that takes a minute to answer. *)
Definition slow : Platform :=
  Scenario.platform_with (fun _ _ _ => (60000, Resolves Scenario.response_200)).

(** A transport whose first call fails and whose later calls answer [r]. *)
Definition flaky (r : Response.t) : Platform :=
  Scenario.platform_with
    (fun k _ _ =>
       match k with
       | O => (10, Rejects Scenario.network_error)
       | S _ => (20, Resolves r)
       end).

Definition refusal : JsError := {| name := "Error"; message := "refused" |}.

(** A response interceptor and a request interceptor that throw. *)
Definition refuse : ResInterceptor := fun _ => Throws (Some refusal).
Definition deny : ReqInterceptor := fun _ => Throws (Some refusal).

Definition refusing : CommonRequest := use_response refuse commonRequest.
Definition denying : CommonRequest := use_request deny commonRequest.

(** [mark_seen] registered first, [refuse] second. *)
Definition marking_then_refusing : CommonRequest :=
  use_response refuse Scenario.marking.

(** [request('/x', { method: 'GET', retries: -1 })] *)
Definition get_retries_minus_1 : RequestOptions :=
  Scenario.opts "GET" JUndefined (Some (-1)) None None None.

(** The exported instance after [request.timeout = 0], and the normalised
    options of a GET with [timeout: 0]. *)
Definition without_timeout : CommonRequest := set_timeout 0 commonRequest.
Definition get_timeout_0 : RequestOptions :=
  options (Scenario.ctx_of slow "/x"
             (set_timeout_option 0 Scenario.get_retries_2)).

(** A not-found answer with a body. *)
Definition response_404 : Response.t :=
  {| Response.status := 404; Response.statusText := "Not Found";
     Response.headers := []; Response.body := Some [[x01]] |}.

(** The normalised options of the download of the scenarios, with a
    caller's signal that fires 5 ms after the start. *)
Definition download_cancelled_at_5 : RequestOptions :=
  set_signal {| abortAt := Some 5 |}
    (options (Scenario.ctx_of Scenario.failing "/f" Scenario.download)).

(** The text [{"status":200}]. *)
Definition answer_text : string :=
  "{" +:+ dquote +:+ "status" +:+ dquote +:+ ":200}".

(** A platform whose upload transport behaves as [b] says. Its
    [JSON.parse] knows the two texts the scenarios answer with:
    [{"status":200}] and [{}]; the empty text is a [SyntaxError]. *)
Definition uploading (b : XhrBehaviour) : Platform :=
  {| fetch_behaviour := fun _ _ _ => (10, Rejects Scenario.network_error);
     xhr_behaviour := fun _ _ => b;
     JSON_parse := fun s =>
       if String.eqb s answer_text then Some (JObject [("status", JNumber 200)])
       else if String.eqb s "{}" then Some (JObject [])
       else None;
     URLSearchParams_sorted := fun _ => "";
     URL_append := fun u _ => u |}.

Definition server_error : XhrBehaviour :=
  {| send_throws := false; name_assignment_fails := None;
     upload_events := [{| pe_at := 5; lengthComputable := true; loaded := 2; total := 2 |}];
     xhr_latency := 10;
     completion := XhrLoad 500 "Internal Server Error" "" "" |}.

Definition accepted : XhrBehaviour :=
  {| send_throws := false; name_assignment_fails := None; upload_events := []; xhr_latency := 10;
     completion := XhrLoad 200 "OK" answer_text "X-Id: 7" |}.

Definition accepted_empty : XhrBehaviour :=
  {| send_throws := false; name_assignment_fails := None; upload_events := [];
     xhr_latency := 10; completion := XhrLoad 200 "OK" "{}" "X-Id: 7" |}.

(** [send] throws a [DOMException]: its [name] cannot be assigned. *)
Definition refused_send : XhrBehaviour :=
  {| send_throws := true;
     name_assignment_fails :=
       Some "Cannot set property name of #<DOMException> which has only a getter";
     upload_events := []; xhr_latency := 0; completion := XhrNetworkError |}.

Definition stalled : XhrBehaviour :=
  {| send_throws := false; name_assignment_fails := None; upload_events := []; xhr_latency := 60000;
     completion := XhrLoad 200 "OK" answer_text "" |}.

Definition unreachable : XhrBehaviour :=
  {| send_throws := false; name_assignment_fails := None; upload_events := []; xhr_latency := 10;
     completion := XhrNetworkError |}.

(** The normalised options of the upload of the scenarios. *)
Definition upload_options : RequestOptions :=
  options (Scenario.ctx_of Scenario.failing "/u" Scenario.upload).

Definition get_timeout_minus_1 : RequestOptions :=
  set_timeout_option (-1) Scenario.get_retries_2.

(** A transport that answers [r] at once. *)
Definition instant (r : Response.t) : Platform :=
  Scenario.platform_with (fun _ _ _ => (0, Resolves r)).

(** A request interceptor that returns the options without their headers:
    [({ options }) => ({ options: { ...options, headers: undefined } })]. *)
Definition without_headers (o : RequestOptions) : RequestOptions :=
  {| requestType := requestType o; responseType := responseType o;
     timeout := timeout o; retries := retries o; retryDelay := retryDelay o;
     onUploadProgress := onUploadProgress o; onDownloadProgress := onDownloadProgress o;
     signal := signal o; params := params o; data := data o; body := body o;
     bodyCopy := bodyCopy o; method := method o; headers := None;
     options_url := options_url o; undefined_keys := "headers" :: undefined_keys o |}.

Definition drop_headers : ReqInterceptor :=
  fun ctx => Returns (Some {| partial_url := None;
                              partial_options := Some (without_headers (options ctx)) |}).

Definition dropping : CommonRequest := use_request drop_headers commonRequest.

(** [new CommonRequest({ method: 'GET', retries: 2, retryDelay: 10 })], and
    the options [{ retries: undefined }] of a call that passes an optional
    value through. *)
Definition retrying_twice : CommonRequest :=
  constructor (Scenario.opts "GET" JUndefined (Some 2) (Some 10) None None).

Definition retries_undefined : RequestOptions :=
  {| requestType := None; responseType := None; timeout := None; retries := None;
     retryDelay := None; onUploadProgress := None; onDownloadProgress := None;
     signal := None; params := None; data := JUndefined; body := JUndefined;
     bodyCopy := JUndefined; method := None; headers := None; options_url := None;
     undefined_keys := ["retries"] |}.
End Cases.

(* ===================================================================== *)
(** * Properties *)
(* ===================================================================== *)

(** ** The interceptor registry *)

Section registry_facts.
Context {T : Type}.
Implicit Types (m : InterceptorManager.t T) (es : list (nat * T)).
Implicit Types (h : list (Registry.entry T)) (calls : list (Registry.call T)).

Lemma sorted_lt_NoDup (l : list nat) : StronglySorted lt l → NoDup l.
Proof.
  induction 1 as [|x l Hs IH Hall]; constructor; [|done].
  intros Hin. rewrite Forall_forall in Hall. specialize (Hall _ Hin). lia.
Qed.

Lemma sorted_lt_snoc (l : list nat) (x : nat) :
  StronglySorted lt l → Forall (fun y => (y < x)%nat) l → StronglySorted lt (l ++ [x]).
Proof.
  induction 1 as [|y l Hs IH Hall]; intros Hlt; simpl.
  - repeat constructor.
  - inversion Hlt; subst. constructor; [by apply IH|].
    apply Forall_app; split; [done|]. by repeat constructor.
Qed.

Lemma sorted_lt_filter (P : nat * T → Prop) `{!∀ e, Decision (P e)} es :
  StronglySorted lt es.*1 → StronglySorted lt (filter P es).*1.
Proof.
  induction es as [|e es IH]; simpl; [done|].
  inversion 1 as [|? ? Hs Hall]; subst.
  rewrite filter_cons. case_decide; [|by apply IH].
  simpl. constructor; [by apply IH|].
  rewrite Forall_forall in Hall. rewrite Forall_forall. intros y Hy.
  apply Hall. apply list_elem_of_fmap in Hy as [e' [-> He']].
  apply list_elem_of_fmap. exists e'. split; [done|].
  by apply list_elem_of_filter in He' as [_ ?].
Qed.

Lemma represents_new : represents ([] : list (nat * T)) InterceptorManager.new.
Proof. repeat split; simpl; constructor. Qed.

Lemma represents_use es m interceptor :
  represents es m →
  represents (es ++ [(InterceptorManager.nextId m, interceptor)])
             (InterceptorManager.use interceptor m).2.
Proof.
  intros (Hids & Hmap & Hsorted & Hlt). unfold represents; simpl.
  rewrite fmap_app; simpl. split_and!.
  - by rewrite Hids.
  - rewrite Hmap. symmetry. apply list_to_map_snoc.
    intros Hin. rewrite Forall_forall in Hlt. specialize (Hlt _ Hin). lia.
  - by apply sorted_lt_snoc.
  - apply Forall_app; split.
    + eapply Forall_impl; [exact Hlt|]. simpl; lia.
    + repeat constructor.
Qed.

Lemma fmap_fst_filter (id : nat) es :
  filter (fun i => i ≠ id) es.*1 = (filter (fun e : nat * T => e.1 ≠ id) es).*1.
Proof.
  induction es as [|e es IH]; simpl; [done|].
  rewrite !filter_cons. simpl. repeat case_decide; simpl; try done; by f_equal.
Qed.

Lemma delete_list_to_map (id : nat) es :
  delete id (list_to_map es : gmap nat T)
  = list_to_map (filter (fun e : nat * T => e.1 ≠ id) es).
Proof.
  induction es as [|[i x] es IH]; simpl.
  - apply delete_empty.
  - rewrite filter_cons. simpl. case_decide as Hne; simpl.
    + rewrite delete_insert_ne; [|done]. by rewrite IH.
    + subst i. by rewrite delete_insert_eq.
Qed.

Lemma represents_eject es m id :
  represents es m →
  represents (filter (fun e : nat * T => e.1 ≠ id) es) (InterceptorManager.eject id m).
Proof.
  intros (Hids & Hmap & Hsorted & Hlt). unfold represents; simpl. split_and!.
  - by rewrite Hids, fmap_fst_filter.
  - by rewrite Hmap, delete_list_to_map.
  - by apply sorted_lt_filter.
  - rewrite Forall_forall in Hlt. rewrite Forall_forall. intros y Hy.
    apply Hlt. apply list_elem_of_fmap in Hy as [e' [-> He']].
    apply list_elem_of_fmap. exists e'. split; [done|].
    by apply list_elem_of_filter in He' as [_ ?].
Qed.

(** The callbacks a traversal reaches are those of the represented list. *)
Lemma callbacks_represents es m : represents es m → Registry.callbacks m = es.*2.
Proof.
  intros (Hids & Hmap & Hsorted & _). unfold Registry.callbacks.
  rewrite Hids, Hmap. apply sorted_lt_NoDup in Hsorted.
  assert (∀ l, l ⊆ es →
            omap (fun id => (list_to_map es : gmap nat T) !! id) l.*1 = l.*2) as Hl.
  { induction l as [|[i x] l IH]; intros Hsub; simpl; [done|].
    rewrite (elem_of_list_to_map_1 es i x); [|done|apply Hsub; left].
    f_equal. apply IH. intros e He. apply Hsub. by right. }
  by apply Hl.
Qed.

Lemma size_represents es m : represents es m → InterceptorManager.size m = length es.
Proof.
  intros (_ & Hmap & Hsorted & _). unfold InterceptorManager.size. rewrite Hmap.
  apply map_size_list_to_map. by apply sorted_lt_NoDup.
Qed.

(** Both traversals are plain iterations over the reachable callbacks. *)
Lemma walk_for_each {W S} m (fn : T → S → Task W S) ids acc (w : W) :
  InterceptorManager.walk m fn ids acc w
  = for_each fn (omap (fun id => InterceptorManager.interceptors m !! id) ids) acc w.
Proof.
  revert acc w. induction ids as [|id ids IH]; intros acc w; simpl; [done|].
  destruct (InterceptorManager.interceptors m !! id); simpl; [|apply IH].
  unfold bind. destruct (fn t acc w) as [[acc'| | |] w']; [apply IH|done..].
Qed.

Lemma forEachAsync_for_each {W S} m (fn : T → S → Task W S) acc (w : W) :
  InterceptorManager.forEachAsync m fn acc w = for_each fn (Registry.callbacks m) acc w.
Proof. apply walk_for_each. Qed.

Lemma omap_rev {A B} (f : A → option B) (l : list A) :
  omap f (rev l) = rev (omap f l).
Proof.
  induction l as [|x l IH]; simpl; [done|].
  rewrite omap_app, IH. simpl. destruct (f x); simpl; [done|]. by rewrite app_nil_r.
Qed.

Lemma forEachReverseAsync_for_each {W S} m (fn : T → S → Task W S) acc (w : W) :
  InterceptorManager.forEachReverseAsync m fn acc w
  = for_each fn (rev (Registry.callbacks m)) acc w.
Proof.
  unfold InterceptorManager.forEachReverseAsync, Registry.callbacks.
  rewrite walk_for_each. by rewrite omap_rev.
Qed.

(** A registry of size 0 reaches no callback. *)
Lemma callbacks_size_0 m : InterceptorManager.size m = 0%nat → Registry.callbacks m = [].
Proof.
  unfold InterceptorManager.size, Registry.callbacks. intros H0%map_size_empty_inv.
  rewrite H0. induction (InterceptorManager.interceptorIds m) as [|id ids IH]; simpl; [done|].
  by rewrite lookup_empty.
Qed.
Lemma survives_eject_iff id h (e : nat * T) :
  survives (Registry.Ejected id :: h) e ↔ e.1 ≠ id ∧ survives h e.
Proof.
  unfold survives; simpl. rewrite orb_false_iff, Nat.eqb_neq. intuition congruence.
Qed.

Lemma survives_after_eject id h es :
  filter (survives h) (filter (fun e : nat * T => e.1 ≠ id) es)
  = filter (survives (Registry.Ejected id :: h)) es.
Proof.
  induction es as [|e es IH]; [done|].
  rewrite (filter_cons _ e es), (filter_cons (survives (Registry.Ejected id :: h)) e es).
  pose proof (survives_eject_iff id h e) as Hiff.
  destruct (decide (e.1 ≠ id)) as [Hne|Heq].
  - rewrite filter_cons.
    destruct (decide (survives h e)), (decide (survives (Registry.Ejected id :: h) e));
      [by f_equal|tauto|tauto|done].
  - destruct (decide (survives (Registry.Ejected id :: h) e)); [tauto|done].
Qed.

Lemma survives_after_use id interceptor h es :
  filter (survives (Registry.Used id interceptor :: h)) es = filter (survives h) es.
Proof. done. Qed.

Lemma ejected_later_spec id h :
  Registry.ejected_later id h = true ↔ Registry.Ejected id ∈ h.
Proof.
  induction h as [|e h IH]; simpl.
  - split; [done|]. by intros ?%elem_of_nil.
  - rewrite orb_true_iff, IH, elem_of_cons. destruct e as [j i|j].
    + split; [intros [?|?]; [done|by right]|intros [?|?]; [done|by right]].
    + rewrite Nat.eqb_eq. split; (intros [?|?]; [left; congruence|by right]).
Qed.

(** A registration is in force exactly when it was made by some call of the
    history and no later call ejected its id. *)
Lemma registered_spec h id (interceptor : T) :
  (id, interceptor) ∈ Registry.registered h
  ↔ ∃ h1 h2, h = h1 ++ Registry.Used id interceptor :: h2 ∧ Registry.Ejected id ∉ h2.
Proof.
  induction h as [|e h IH].
  - split; [by intros ?%elem_of_nil|]. intros (h1 & h2 & Heq & _). by destruct h1.
  - destruct e as [j i|j]; simpl.
    + destruct (Registry.ejected_later j h) eqn:Hlater.
      * rewrite IH. split.
        -- intros (h1 & h2 & -> & Hno). by exists (Registry.Used j i :: h1), h2.
        -- intros (h1 & h2 & Heq & Hno). destruct h1 as [|e h1]; simplify_eq/=.
           ++ apply ejected_later_spec in Hlater. done.
           ++ by exists h1, h2.
      * rewrite elem_of_cons, IH. split.
        -- intros [[= -> ->]|(h1 & h2 & -> & Hno)].
           ++ exists [], h. split; [done|]. rewrite <- ejected_later_spec. by rewrite Hlater.
           ++ by exists (Registry.Used j i :: h1), h2.
        -- intros (h1 & h2 & Heq & Hno). destruct h1 as [|e h1]; simplify_eq/=.
           ++ by left.
           ++ right. by exists h1, h2.
    + rewrite IH. split.
      * intros (h1 & h2 & -> & Hno). by exists (Registry.Ejected j :: h1), h2.
      * intros (h1 & h2 & Heq & Hno). destruct h1 as [|e h1]; simplify_eq/=.
        by exists h1, h2.
Qed.

(** Replaying calls keeps the registry in step with the history: what it
    holds afterwards is what it held and no call ejected, followed by the
    registrations of the history that are still in force. *)
Lemma replay_represents calls : ∀ m es,
  represents es m →
  represents (filter (survives (Registry.replay calls m).1) es
                ++ Registry.registered (Registry.replay calls m).1)
             (Registry.replay calls m).2
  ∧ StronglySorted lt (Registry.issued (Registry.replay calls m).1)
  ∧ Forall (fun id => (InterceptorManager.nextId m ≤ id)%nat)
           (Registry.issued (Registry.replay calls m).1).
Proof.
  induction calls as [|[interceptor|id] calls IH]; intros m es Hrep; simpl.
  - split_and!; [|constructor..].
    rewrite app_nil_r.
    assert (filter (survives []) es = es) as ->; [|done].
    clear. induction es as [|e es IH]; [done|].
    rewrite filter_cons. rewrite decide_True by done. by f_equal.
  - specialize (IH _ _ (represents_use _ _ interceptor Hrep)).
    simpl in IH.
    destruct (Registry.replay calls _) as [h m'] eqn:Hreplay. simpl in *.
    destruct IH as (Hrep' & Hsorted & Hge). split_and!.
    + rewrite survives_after_use. rewrite filter_app in Hrep'.
      rewrite filter_cons, filter_nil in Hrep'.
      destruct (decide (survives h (InterceptorManager.nextId m, interceptor)))
        as [Hs|Hs]; unfold survives in Hs; simpl in Hs.
      * rewrite Hs. by rewrite <- app_assoc in Hrep'.
      * apply not_false_is_true in Hs. rewrite Hs.
        by rewrite app_nil_r in Hrep'.
    + constructor; [done|]. eapply Forall_impl; [exact Hge|]. simpl; lia.
    + constructor; [lia|]. eapply Forall_impl; [exact Hge|]. simpl; lia.
  - specialize (IH _ _ (represents_eject _ _ id Hrep)).
    destruct (Registry.replay calls _) as [h m'] eqn:Hreplay. simpl in *.
    destruct IH as (Hrep' & Hsorted & Hge). split_and!; [|done..].
    by rewrite survives_after_eject in Hrep'.
Qed.
End registry_facts.

(** C9 (registry invariants). For every sequence of [use]/[eject] calls on a
    fresh registry: the ids returned by [use] are strictly increasing in call
    order (so unique, and never handed out again, ejected or not); [size()] is
    the number of registrations still in force; and a forward traversal runs
    its function on exactly the callbacks still in force, in ascending order
    of their ids. *)
Theorem registry_use_eject_invariants {T : Type} (calls : list (Registry.call T)) :
  let h := (Registry.replay calls InterceptorManager.new).1 in
  let m := (Registry.replay calls InterceptorManager.new).2 in
  StronglySorted lt (Registry.issued h)
  ∧ InterceptorManager.size m = length (Registry.registered h)
  ∧ StronglySorted lt (Registry.registered h).*1
  ∧ ∀ (W S : Type) (fn : T → S → Task W S) (acc : S) (w : W),
      InterceptorManager.forEachAsync m fn acc w
      = for_each fn (Registry.registered h).*2 acc w.
Proof.
  intros h m.
  destruct (replay_represents calls InterceptorManager.new [] represents_new)
    as (Hrep & Hissued & _).
  fold h m in Hrep, Hissued. rewrite filter_nil, app_nil_l in Hrep.
  split_and!.
  - exact Hissued.
  - by apply size_represents.
  - by destruct Hrep as (_ & _ & ? & _).
  - intros W S fn acc w. rewrite forEachAsync_for_each.
    by rewrite (callbacks_represents _ _ Hrep).
Qed.

(** ** One transport call *)

Section fetch_facts.
Implicit Types (w : World) (init options : RequestOptions).

Lemma fetch_trace resource init w :
  trace (fetch resource init w).2 = trace w ++ [EvFetch resource init].
Proof.
  unfold fetch.
  destruct (fetch_behaviour _ _ _ _) as [latency [r|e]];
    destruct (signal init) as [[[t|]]|]; simpl;
    try destruct (_ || _); reflexivity.
Qed.

Lemma fetch_platform resource init w :
  platform (fetch resource init w).2 = platform w.
Proof.
  unfold fetch.
  destruct (fetch_behaviour _ _ _ _) as [latency [r|e]];
    destruct (signal init) as [[[t|]]|]; simpl;
    try destruct (_ || _); reflexivity.
Qed.

(** Nothing aborts the call: it settles as the platform says. *)
Lemma fetch_settles resource init w latency result :
  fetch_behaviour (platform w) (fetch_calls (trace w)) resource init = (latency, result) →
  (∀ t, fires_at init = Some t → now w < t ∧ now w + Z.max 0 latency ≤ t) →
  fetch resource init w
  = (match result with
     | Resolves r => Fulfilled r
     | Rejects e => Rejected (Some e)
     end,
     advance_to (now w + Z.max 0 latency) (log (EvFetch resource init) w)).
Proof.
  intros Hb Hfree. unfold fetch, fires_at in *. rewrite Hb.
  destruct (signal init) as [[[t|]]|]; simpl in *.
  - destruct (Hfree t eq_refl) as [H1 H2].
    rewrite (proj2 (Z.leb_gt _ _) H1), (proj2 (Z.ltb_ge _ _) H2). simpl.
    by destruct result.
  - by destruct result.
  - by destruct result.
Qed.

(** The derived signal fires first: the call rejects with [AbortError]. *)
Lemma fetch_aborts resource init w latency result t :
  fetch_behaviour (platform w) (fetch_calls (trace w)) resource init = (latency, result) →
  fires_at init = Some t →
  t ≤ now w ∨ t < now w + Z.max 0 latency →
  fetch resource init w
  = (Rejected (Some fetch_abort_error), advance_to t (log (EvFetch resource init) w)).
Proof.
  intros Hb Hfires Hearly. unfold fetch, fires_at in *. rewrite Hb.
  destruct (signal init) as [[[t'|]]|]; simpl in *; try discriminate.
  injection Hfires as ->.
  assert ((t <=? now w) || (t <? now w + Z.max 0 latency) = true) as ->; [|done].
  apply orb_true_iff. rewrite Z.leb_le, Z.ltb_lt. lia.
Qed.

Lemma signal_set_signal s options : signal (set_signal s options) = Some s.
Proof. done. Qed.

Lemma body_set_signal s options : body (set_signal s options) = body options.
Proof. done. Qed.

Lemma data_set_signal s options : data (set_signal s options) = data options.
Proof. done. Qed.

Lemma timeoutPromise_unfold resource options timeout userSignal w :
  timeoutPromise resource options timeout userSignal w
  = try_catch
      (fetch resource (set_signal (derived_signal userSignal timeout (now w)) options))
      (rethrow_classified userSignal) w.
Proof. done. Qed.

(** One attempt is one transport call. *)
Lemma timeoutPromise_trace resource options timeout userSignal w :
  trace (timeoutPromise resource options timeout userSignal w).2
  = trace w ++ [EvFetch resource
                  (set_signal (derived_signal userSignal timeout (now w)) options)].
Proof.
  rewrite timeoutPromise_unfold. unfold try_catch.
  pose proof (fetch_trace resource
    (set_signal (derived_signal userSignal timeout (now w)) options) w) as Htr.
  destruct (fetch _ _ w) as [[r|e| |] w1]; simpl in *; try done.
  unfold rethrow_classified. destruct e as [e|]; [|done].
  destruct (String.eqb _ _); [|done].
  unfold bind, clock. by destruct (match userSignal with Some _ => _ | None => _ end).
Qed.

Lemma timeoutPromise_platform resource options timeout userSignal w :
  platform (timeoutPromise resource options timeout userSignal w).2 = platform w.
Proof.
  rewrite timeoutPromise_unfold. unfold try_catch.
  pose proof (fetch_platform resource
    (set_signal (derived_signal userSignal timeout (now w)) options) w) as Htr.
  destruct (fetch _ _ w) as [[r|e| |] w1]; simpl in *; try done.
  unfold rethrow_classified. destruct e as [e|]; [|done].
  destruct (String.eqb _ _); [|done].
  unfold bind, clock. by destruct (match userSignal with Some _ => _ | None => _ end).
Qed.

Lemma derived_signal_undisturbed userSignal timeout t0 latency :
  undisturbed userSignal timeout t0 latency →
  ∀ t, abortAt (derived_signal userSignal timeout t0) = Some t →
       t0 < t ∧ t0 + Z.max 0 latency ≤ t.
Proof.
  intros [Huser Htimer] t. unfold derived_signal, follow, user_fires_at, aborted in *.
  simpl.
  destruct userSignal as [[[tu|]]|]; simpl in *.
  - destruct (Huser tu eq_refl) as [H1 H2].
    rewrite (proj2 (Z.leb_gt _ _) H1).
    destruct Htimer as [->|[Hpos Hle]]; simpl.
    + intros [= <-]. lia.
    + rewrite (proj2 (Z.eqb_neq _ _)) by lia. simpl. intros [= <-]. lia.
  - destruct Htimer as [->|[Hpos Hle]]; simpl; [done|].
    rewrite (proj2 (Z.eqb_neq _ _)) by lia. simpl. intros [= <-]. lia.
  - destruct Htimer as [->|[Hpos Hle]]; simpl; [done|].
    rewrite (proj2 (Z.eqb_neq _ _)) by lia. simpl. intros [= <-]. lia.
Qed.

(** An undisturbed attempt settles as the transport does: a response is
    returned, and an error that is not an [AbortError] is rethrown as it
    is. *)
Lemma timeoutPromise_undisturbed resource options timeout userSignal w latency result :
  (∀ init, fetch_behaviour (platform w) (fetch_calls (trace w)) resource init
           = (latency, result)) →
  undisturbed userSignal timeout (now w) latency →
  (∀ e, result = Rejects e → String.eqb (name e) "AbortError" = false) →
  timeoutPromise resource options timeout userSignal w
  = (match result with
     | Resolves r => Fulfilled r
     | Rejects e => Rejected (Some e)
     end,
     advance_to (now w + Z.max 0 latency)
       (log (EvFetch resource
               (set_signal (derived_signal userSignal timeout (now w)) options)) w)).
Proof.
  intros Hb Hfree Hname. rewrite timeoutPromise_unfold. unfold try_catch.
  rewrite (fetch_settles _ _ _ latency result (Hb _)).
  - destruct result as [r|e]; [done|].
    unfold rethrow_classified. by rewrite (Hname e eq_refl).
  - unfold fires_at. rewrite signal_set_signal.
    by apply derived_signal_undisturbed.
Qed.
End fetch_facts.

(** ** Cancellation and deadline *)

Section cancellation_facts.
Implicit Types (w : World) (options : RequestOptions).


End cancellation_facts.

(** ** The retry loop, one iteration at a time *)

Section loop_steps.
Context (that : CommonRequest) (url : string).
Implicit Types (w : World) (options : RequestOptions) (fuel : nat).

Lemma reset_body_idem options : reset_body (reset_body options) = reset_body options.
Proof.
  unfold reset_body. destruct (truthy (bodyCopy options)) eqn:Hb; simpl; [|by rewrite Hb].
  by rewrite Hb.
Qed.

Lemma loop_exit fuel options retries retryDelay attempts lastError w :
  retries < attempts →
  retryLoop fuel that url options retries retryDelay attempts lastError w
  = (Rejected lastError, w).
Proof.
  intros Hlt. destruct fuel; cbn [retryLoop];
    by rewrite (proj2 (Z.leb_gt _ _) Hlt).
Qed.

(** A fulfilled attempt whose response the interceptors accept ends the
    loop there and then. *)
Lemma loop_success fuel options retries retryDelay attempts lastError w res w1 final w2 :
  attempts ≤ retries →
  attempt that url options w = (Fulfilled res, w1) →
  applyResponseInterceptors that res w1 = (Fulfilled final, w2) →
  retryLoop (S fuel) that url options retries retryDelay attempts lastError w
  = (Fulfilled final, w2).
Proof.
  intros Hle Ha Hi. cbn [retryLoop]. rewrite (proj2 (Z.leb_le _ _) Hle).
  unfold try_catch, bind. unfold attempt in Ha. rewrite Ha, Hi. done.
Qed.



(** Any other error with attempts left: wait, then go round again, with
    the same options. *)
Lemma loop_retry fuel options retries retryDelay attempts lastError w e w1 :
  attempts < retries →
  attempt that url options w = (Rejected e, w1) →
  is_cancellation e = false →
  retryLoop (S fuel) that url options retries retryDelay attempts lastError w
  = retryLoop fuel that url (reset_body options) retries retryDelay (attempts + 1) e
      (delay retryDelay w1).2.
Proof.
  intros Hlt Ha Hc. cbn [retryLoop]. rewrite (proj2 (Z.leb_le _ _)) by lia.
  unfold try_catch, bind. unfold attempt in Ha. rewrite Ha, Hc.
  assert ((attempts >=? retries) = false) as ->; [|done].
  rewrite Z.geb_leb. apply Z.leb_gt. lia.
Qed.
End loop_steps.

(** ** What the loop leaves in the trace *)

Section trace_facts.
Implicit Types (w : World) (tr : list Event).

Lemma fetch_calls_app tr1 tr2 :
  fetch_calls (tr1 ++ tr2) = (fetch_calls tr1 + fetch_calls tr2)%nat.
Proof. unfold fetch_calls. by rewrite List.filter_app, length_app. Qed.

Lemma xhr_sends_app tr1 tr2 :
  xhr_sends (tr1 ++ tr2) = (xhr_sends tr1 + xhr_sends tr2)%nat.
Proof. unfold xhr_sends. by rewrite List.filter_app, length_app. Qed.

Lemma delays_app tr1 tr2 : delays (tr1 ++ tr2) = (delays tr1 + delays tr2)%nat.
Proof. unfold delays. by rewrite List.filter_app, length_app. Qed.

Lemma fetch_calls_loop_events url retryDelay inits :
  fetch_calls (loop_events url retryDelay inits) = length inits.
Proof.
  induction inits as [|init [|init' rest] IH]; [done..|].
  change (fetch_calls (EvFetch url init :: EvDelay retryDelay
                         :: loop_events url retryDelay (init' :: rest))
          = S (length (init' :: rest))).
  unfold fetch_calls in *. simpl in *. by rewrite IH.
Qed.

Lemma delays_loop_events url retryDelay inits :
  delays (loop_events url retryDelay inits) = pred (length inits).
Proof.
  induction inits as [|init [|init' rest] IH]; [done..|].
  change (delays (EvFetch url init :: EvDelay retryDelay
                    :: loop_events url retryDelay (init' :: rest))
          = length (init' :: rest)).
  unfold delays in *. simpl in *. by rewrite IH.
Qed.

Lemma xhr_sends_loop_events url retryDelay inits :
  xhr_sends (loop_events url retryDelay inits) = 0%nat.
Proof.
  induction inits as [|init [|init' rest] IH]; [done..|].
  change (xhr_sends (EvFetch url init :: EvDelay retryDelay
                       :: loop_events url retryDelay (init' :: rest)) = 0%nat).
  unfold xhr_sends in *. simpl in *. by rewrite IH.
Qed.

Lemma loop_events_cons url retryDelay init inits :
  inits ≠ [] →
  loop_events url retryDelay (init :: inits)
  = EvFetch url init :: EvDelay retryDelay :: loop_events url retryDelay inits.
Proof. by destruct inits. Qed.

(** Response interceptors are callbacks: running them leaves the world
    as it is. *)
Lemma for_each_complete_world {A T} (l : list (T → Completion T)) (x : T) (w : A) :
  (for_each (fun i r => complete (i r)) l x w).2 = w.
Proof.
  revert x. induction l as [|i l IH]; intros x; simpl; [done|].
  unfold bind. destruct (i x) as [y|e]; simpl; [apply IH|done].
Qed.

Lemma applyResponseInterceptors_for_each that res w :
  applyResponseInterceptors that res w
  = for_each (fun i r => complete (i r))
      (rev (Registry.callbacks (interceptors_response that))) res w.
Proof.
  unfold applyResponseInterceptors. destruct (_ <=? 0)%nat eqn:Hsize.
  - apply Nat.leb_le in Hsize.
    rewrite callbacks_size_0 by lia. done.
  - apply forEachReverseAsync_for_each.
Qed.

Lemma applyResponseInterceptors_world that res w :
  (applyResponseInterceptors that res w).2 = w.
Proof. rewrite applyResponseInterceptors_for_each. apply for_each_complete_world. Qed.
End trace_facts.

Section loop_trace.
Context (that : CommonRequest) (url : string).
Implicit Types (w : World) (options : RequestOptions) (fuel : nat).

Lemma fetch_settled resource init w : settled_now (fetch resource init w).1.
Proof.
  unfold fetch.
  destruct (fetch_behaviour _ _ _ _) as [latency [r|e]];
    destruct (signal init) as [[[t|]]|]; simpl;
    try destruct (_ || _); exact I.
Qed.

Lemma timeoutPromise_settled resource options timeout userSignal w :
  settled_now (timeoutPromise resource options timeout userSignal w).1.
Proof.
  rewrite timeoutPromise_unfold. unfold try_catch.
  pose proof (fetch_settled resource
    (set_signal (derived_signal userSignal timeout (now w)) options) w) as Hs.
  destruct (fetch _ _ w) as [[r|e| |] w1]; simpl in *; try done.
  unfold rethrow_classified. destruct e as [e|]; [|done].
  destruct (String.eqb _ _); [|done].
  unfold bind, clock. by destruct (match userSignal with Some _ => _ | None => _ end).
Qed.

Lemma for_each_complete_settled {A T} (l : list (T → Completion T)) (x : T) (w : A) :
  settled_now (for_each (fun i r => complete (i r)) l x w).1.
Proof.
  revert x. induction l as [|i l IH]; intros x; simpl; [done|].
  unfold bind. destruct (i x) as [y|e]; simpl; [apply IH|done].
Qed.

Lemma applyResponseInterceptors_settled res w :
  settled_now (applyResponseInterceptors that res w).1.
Proof. rewrite applyResponseInterceptors_for_each. apply for_each_complete_settled. Qed.

Lemma try_block_spec options w :
  ∃ init,
    settled_now (try_block that url options w).1
    ∧ sent_as options init
    ∧ trace (try_block that url options w).2 = trace w ++ [EvFetch url init].
Proof.
  unfold try_block, bind.
  pose proof (timeoutPromise_settled url options (effective_timeout that options)
                (signal options) w) as Hs.
  pose proof (timeoutPromise_trace url options (effective_timeout that options)
                (signal options) w) as Ht.
  eexists. split_and!; [|by eexists|].
  - destruct (timeoutPromise _ _ _ _ w) as [[res|e| |] w1]; simpl in *; try done.
    pose proof (applyResponseInterceptors_settled res w1) as Hs'.
    by destruct (applyResponseInterceptors that res w1) as [[final|e| |] w2].
  - destruct (timeoutPromise _ _ _ _ w) as [[res|e| |] w1]; simpl in *; try done.
    pose proof (applyResponseInterceptors_world that res w1) as Hw.
    destruct (applyResponseInterceptors that res w1) as [[final|e| |] w2];
      simpl in *; by subst.
Qed.

Lemma retryLoop_unfold fuel options retries retryDelay attempts lastError w :
  attempts ≤ retries →
  retryLoop (S fuel) that url options retries retryDelay attempts lastError w
  = match try_block that url (reset_body options) w with
    | (Rejected error, w1) =>
        if is_cancellation error then (Rejected error, w1)
        else if attempts >=? retries then (Rejected error, w1)
        else retryLoop fuel that url (reset_body options) retries retryDelay
               (attempts + 1) error (delay retryDelay w1).2
    | r => r
    end.
Proof.
  intros Hle. cbn [retryLoop]. rewrite (proj2 (Z.leb_le _ _) Hle).
  unfold try_catch, try_block.
  destruct (bind _ _ w) as [[final|e| |] w1]; try done.
  destruct (is_cancellation e); [done|]. by destruct (attempts >=? retries).
Qed.

(** Whatever the transport does, a run of the loop with enough fuel
    settles, and what it leaves in the trace is its attempts, each sent
    with the same options, and the delays between them. *)
Lemma retryLoop_trace fuel : ∀ options retries retryDelay attempts lastError w,
  (enough_fuel retries attempts ≤ fuel)%nat →
  ∃ inits,
    settled_now (retryLoop fuel that url options retries retryDelay attempts lastError w).1
    ∧ trace (retryLoop fuel that url options retries retryDelay attempts lastError w).2
      = trace w ++ loop_events url retryDelay inits
    ∧ Forall (sent_as (reset_body options)) inits
    ∧ (attempts ≤ retries → inits ≠ [])
    ∧ (length inits ≤ enough_fuel retries attempts)%nat.
Proof.
  induction fuel as [|fuel IH]; intros options retries retryDelay attempts lastError w Hfuel.
  - exists []. rewrite loop_exit by (unfold enough_fuel in Hfuel; lia).
    simpl. rewrite app_nil_r. split_and!; try done; [|lia].
    unfold enough_fuel in Hfuel; lia.
  - destruct (Z.le_gt_cases attempts retries) as [Hle|Hgt].
    2:{ exists []. rewrite loop_exit by lia. simpl. rewrite app_nil_r.
        split_and!; try done; lia. }
    rewrite retryLoop_unfold by done.
    destruct (try_block_spec (reset_body options) w) as (init & Hs & Hsent & Htr).
    destruct (try_block that url (reset_body options) w) as [[final|e| |] w1]; simpl in *;
      try done.
    + exists [init]. simpl. split_and!; try done; [by repeat constructor|].
      unfold enough_fuel. lia.
    + destruct (is_cancellation e).
      { exists [init]. simpl. split_and!; try done; [by repeat constructor|].
        unfold enough_fuel. lia. }
      destruct (Z.geb_spec attempts retries) as [Hge|Hlt].
      { exists [init]. simpl. split_and!; try done; [by repeat constructor|].
        unfold enough_fuel. lia. }
      edestruct (IH (reset_body options) retries retryDelay (attempts + 1) e
                    (delay retryDelay w1).2) as (inits & Hs' & Htr' & Hall & Hne & Hlen).
      { unfold enough_fuel in *. lia. }
      exists (init :: inits). split_and!; try done.
      * change (advance_to _ _) with (delay retryDelay w1).2.
        rewrite Htr', loop_events_cons by (apply Hne; lia).
        change (trace (delay retryDelay w1).2) with (trace w1 ++ [EvDelay retryDelay]).
        rewrite Htr. by rewrite <- !app_assoc.
      * constructor; [done|]. by rewrite reset_body_idem in Hall.
      * simpl. unfold enough_fuel in *. lia.
Qed.

(** With the fuel [dispatch] gives it, the loop never runs out of fuel. *)
Lemma retryLoop_fuel_enough fuel options retries retryDelay attempts lastError w :
  (enough_fuel retries attempts ≤ fuel)%nat →
  (retryLoop fuel that url options retries retryDelay attempts lastError w).1 ≠ OutOfFuel.
Proof.
  intros Hfuel Hout.
  destruct (retryLoop_trace fuel options retries retryDelay attempts lastError w Hfuel)
    as (inits & Hs & _).
  by rewrite Hout in Hs.
Qed.
End loop_trace.

(** ** A transport that fails every time *)

Section always_failing.
Context (that : CommonRequest) (url : string).
Context (lat : nat → Z) (err : nat → JsError).
Hypothesis err_plain : ∀ k, is_cancellation (Some (err k)) = false.
Implicit Types (w : World) (options : RequestOptions) (fuel : nat).



Lemma delay_fetch_calls ms w :
  fetch_calls (trace (delay ms w).2) = fetch_calls (trace w).
Proof.
  change (trace (delay ms w).2) with (trace w ++ [EvDelay ms]).
  rewrite fetch_calls_app. unfold fetch_calls at 2. simpl. lia.
Qed.


End always_failing.

(** ** The pipeline *)

Lemma request_prepared that urlStr opts w ctx :
  prepared that urlStr opts w ctx →
  request that urlStr opts w = dispatch that ctx w.
Proof. intros Hp. unfold request, bind. unfold prepared in Hp. by rewrite Hp. Qed.

Lemma dispatch_direct that ctx w :
  direct (options ctx) →
  dispatch that ctx w
  = retryLoop (enough_fuel (default 0 (retries (options ctx))) 0) that (url ctx)
      (options ctx) (default 0 (retries (options ctx)))
      (default 2000 (retryDelay (options ctx))) 0 None w.
Proof. intros [Hd Hu]. unfold dispatch. by rewrite Hd, Hu. Qed.

(** The request never runs out of fuel, and settles on the direct path. *)
Lemma dispatch_direct_settles that ctx w :
  direct (options ctx) → settled_now (dispatch that ctx w).1.
Proof.
  intros Hd. rewrite dispatch_direct by done.
  by destruct (retryLoop_trace that (url ctx) _ (options ctx)
                 (default 0 (retries (options ctx)))
                 (default 2000 (retryDelay (options ctx))) 0 None w (le_n _))
    as (inits & Hs & _).
Qed.

(** What the request chain computes: every interceptor, in registration
    order, is called on the context the chain started from; only the merge
    accumulates. *)
Lemma applyRequestInterceptors_for_each that ctx w :
  applyRequestInterceptors that ctx w
  = for_each (request_step ctx) (Registry.callbacks (interceptors_request that)) ctx w.
Proof.
  unfold applyRequestInterceptors. destruct (_ <=? 0)%nat eqn:Hsize.
  - apply Nat.leb_le in Hsize. rewrite callbacks_size_0 by lia. done.
  - apply forEachAsync_for_each.
Qed.

(** An interceptor that returns nothing leaves the in-flight context as it
    was. *)
Lemma request_step_void ctx interceptor newCtx w :
  interceptor ctx = Returns None →
  request_step ctx interceptor newCtx w = (Fulfilled newCtx, w).
Proof. intros H. unfold request_step, bind. by rewrite H. Qed.

(** The chain of the specification differs only in the context handed to
    the interceptor. *)
Lemma chain_step_request_step interceptor inflight w :
  chain_step interceptor inflight w = request_step inflight interceptor inflight w.
Proof. done. Qed.



(** ** What normalisation and the download deliver *)

Lemma read_progress_fulfilled cb total chunks : ∀ received w,
  (read_progress cb total chunks received w).1 = Fulfilled tt.
Proof.
  induction chunks as [|value chunks IH]; intros received w; [done|].
  cbn [read_progress]. unfold bind, emit. apply IH.
Qed.

(** A download whose transport call answers, undisturbed by the caller,
    with a successful response and a body: the caller gets a response whose
    body is the whole body of the answer. *)
Lemma download_delivers_body url options cb w latency res chunks :
  (∀ init, fetch_behaviour (platform w) (fetch_calls (trace w)) url init
           = (latency, Resolves res)) →
  (∀ t, user_fires_at (signal options) = Some t →
        now w < t ∧ now w + Z.max 0 latency ≤ t) →
  Response.body res = Some chunks →
  Response.ok res = true →
  (downloadWithProgress url options cb w).1 = Fulfilled (Response.of_stream chunks).
Proof.
  intros Hb Hfree Hbody Hok. unfold downloadWithProgress, bind, clock, try_catch.
  rewrite (fetch_settles _ _ _ latency (Resolves res) (Hb _)).
  - rewrite Hbody, Hok. unfold Response.tee.
    match goal with
    | |- context [read_progress ?c ?t ?ch ?r ?w'] =>
        pose proof (read_progress_fulfilled c t ch r w') as Hr;
        destruct (read_progress c t ch r w') as [[[]|e| |] w2]; simpl in Hr; try done
    end.
  - unfold fires_at. rewrite signal_set_signal. simpl.
    unfold follow, user_fires_at, aborted in *.
    destruct (signal options) as [[[tu|]]|]; simpl; [|done..].
    destruct (Hfree tu eq_refl) as [H1 H2].
    rewrite (proj2 (Z.leb_gt _ _) H1). intros t [= <-]. lia.
Qed.

(** ** The claims on concrete requests *)

(** C1 as stated fails. A POST whose body is a stream, with [retries = 1],
    against a transport failing every call with a plain network error: the
    pipeline does not refuse to retry. It calls the transport twice, both
    times with the stream as body, and rejects with the network error of the
    transport; no error named BodyNotReplayable is raised. *)
Lemma stream_body_is_retried :
  let r := request commonRequest "/x" Scenario.post_stream
             (Scenario.start Scenario.failing) in
  r.1 = Rejected (Some Scenario.network_error)
  ∧ fetch_calls (trace r.2) = 2%nat
  ∧ bodies_sent (trace r.2) = [Scenario.stream; Scenario.stream]
  ∧ name Scenario.network_error ≠ "BodyNotReplayable".
Proof. vm_compute. split_and!; [reflexivity..|discriminate]. Qed.

(** C2 on two interceptors that each append to the url they are given. The
    code hands both the initial context, so the second replacement
    overwrites the first; the fold the claim describes would hand the
    second interceptor the url the first one produced. *)
Theorem request_interceptors_get_initial_context :
  let ctx := Scenario.ctx_of Scenario.failing "/x" Scenario.get_retries_2 in
  let w := Scenario.start Scenario.failing in
  Registry.callbacks (interceptors_request Scenario.two_request_interceptors)
  = [Scenario.append_to_url "/a"; Scenario.append_to_url "/b"]
  ∧ (applyRequestInterceptors Scenario.two_request_interceptors ctx w).1
    = Fulfilled {| url := "/x/b"; options := options ctx |}
  ∧ (chain_fold [Scenario.append_to_url "/a"; Scenario.append_to_url "/b"] ctx w).1
    = Fulfilled {| url := "/x/a/b"; options := options ctx |}.
Proof. vm_compute. split_and!; reflexivity. Qed.

(** C5 as stated fails. With a response interceptor registered that marks
    what it sees, a download-progress request delivers the unmarked
    response, while the same request without the progress callback delivers
    the marked one: the download path does not apply response
    interceptors. *)
Lemma download_skips_response_interceptors :
  let w := Scenario.start (Scenario.answering Scenario.response_206) in
  (request Scenario.marking "/f" Scenario.download w).1
  = Fulfilled (Response.of_stream [[x01; x02]; [x03]])
  ∧ Scenario.mark_seen (Response.of_stream [[x01; x02]; [x03]])
    ≠ Returns (Response.of_stream [[x01; x02]; [x03]])
  ∧ (request Scenario.marking "/f" Scenario.get_retries_2 w).1
    = Fulfilled {| Response.status := 206; Response.statusText := "seen";
                   Response.headers := Response.headers Scenario.response_206;
                   Response.body := Response.body Scenario.response_206 |}.
Proof. vm_compute. split_and!; [reflexivity|discriminate|reflexivity]. Qed.

(** C6 on a 206 answer with two headers and a body of two chunks. The
    caller's copy of the body is whole, one progress report was made per
    chunk, but the response delivered has status 200 and no header: the
    status and the headers of the transport's response are dropped. *)
Theorem download_response_loses_status_and_headers :
  let r := request commonRequest "/f" Scenario.download
             (Scenario.start (Scenario.answering Scenario.response_206)) in
  r.1 = Fulfilled {| Response.status := 200; Response.statusText := "";
                     Response.headers := [];
                     Response.body := Response.body Scenario.response_206 |}
  ∧ Response.status Scenario.response_206 = 206
  ∧ Response.headers Scenario.response_206
    = [("content-type", "video/mp4"); ("content-length", "3")]
  ∧ List.filter (fun e => negb (is_fetch e)) (trace r.2)
    = [EvDownloadProgress 0%nat 2 (Some 3) (Fraction 2 3);
       EvDownloadProgress 0%nat 3 (Some 3) (Fraction 3 3)].
Proof. vm_compute. split_and!; reflexivity. Qed.

(** C7 on its own scenario. [request('/x', {method:'POST', data:{a:1}})]
    against a transport answering [{status:200, ok:true}] makes one transport
    call whose body is the object itself, not its JSON encoding, and whose
    Content-Type is [application/json], without a charset. *)
Theorem post_object_is_not_serialised :
  let r := request commonRequest "/x" Scenario.post_a_1
             (Scenario.start (Scenario.answering Scenario.response_200)) in
  r.1 = Fulfilled Scenario.response_200
  ∧ bodies_sent (trace r.2) = [JObject [("a", JNumber 1)]]
  ∧ JSON_stringify (JObject [("a", JNumber 1)])
    = JString ("{" +:+ dquote +:+ "a" +:+ dquote +:+ ":1}")
  ∧ (fun init => Headers_get (default [] (headers init)) "Content-Type")
      <$> inits_sent (trace r.2)
    = [Some "application/json"].
Proof. vm_compute. split_and!; reflexivity. Qed.

(** The same request with the header [Content-Type: application/json]
    given by the caller is serialised: the check reads the header as given. *)
Lemma post_object_with_json_header :
  bodies_sent (trace (request commonRequest "/x" Scenario.post_a_1_json
                        (Scenario.start (Scenario.answering Scenario.response_200))).2)
  = [JString ("{" +:+ dquote +:+ "a" +:+ dquote +:+ ":1}")].
Proof. vm_compute. reflexivity. Qed.

(** C8 as stated fails. The text body ['hi'] is replayable, and
    normalisation leaves [bodyCopy] undefined: no snapshot is produced for
    it. *)
Lemma replayable_body_gets_no_snapshot :
  let o := normalizeRequestOptions Scenario.failing
             (spread (defaults commonRequest) Scenario.post_text) in
  body o = JString "hi"
  ∧ isBodyReusable (body o) = true
  ∧ bodyCopy o = JUndefined.
Proof. vm_compute. split_and!; reflexivity. Qed.

(** ** Retrying resubmits the same body *)

Lemma attempt_trace that url options w :
  ∃ init,
  sent_as (reset_body options) init
  ∧ trace (attempt that url options w).2 = trace w ++ [EvFetch url init].
Proof.
  unfold attempt. eexists. split; [by eexists|]. apply timeoutPromise_trace.
Qed.

Lemma body_sent_as options init : sent_as options init → body init = body options.
Proof. by intros [c ->]. Qed.

(** C1, amended. On the direct path with [retries >= 1], whatever the body
    (a stream included): when the first attempt fails with an error that is
    neither an [AbortError] nor a [TimeoutError], the pipeline does not
    refuse to retry. It waits [retryDelay] and calls the transport a second
    time, for the same url and with the same body as the first call. *)
Theorem retry_resubmits_same_body
  (that : CommonRequest) (urlStr : string) (opts : RequestOptions) (w : World)
  (ctx : RequestContext) (e : Thrown) (w1 : World) :
  prepared that urlStr opts w ctx →
  direct (options ctx) →
  1 ≤ default 0 (retries (options ctx)) →
  attempt that (url ctx) (options ctx) w = (Rejected e, w1) →
  is_cancellation e = false →
  ∃ init1 init2 rest,
    trace (request that urlStr opts w).2
    = trace w ++ EvFetch (url ctx) init1
               :: EvDelay (default 2000 (retryDelay (options ctx)))
               :: EvFetch (url ctx) init2 :: rest
    ∧ body init1 = body (reset_body (options ctx))
    ∧ body init2 = body init1.
Proof.
  intros Hprep Hdirect Hretries Ha Hplain.
  rewrite (request_prepared _ _ _ _ _ Hprep), dispatch_direct by done.
  set (R := default 0 (retries (options ctx))) in *.
  set (D := default 2000 (retryDelay (options ctx))).
  assert (∃ fuel, enough_fuel R 0 = S fuel ∧ (enough_fuel R 1 ≤ fuel)%nat)
    as (fuel & -> & Hfuel).
  { exists (Z.to_nat R). unfold enough_fuel. lia. }
  rewrite (loop_retry that (url ctx) fuel (options ctx) R D 0 None w e w1
             ltac:(lia) Ha Hplain).
  destruct (attempt_trace that (url ctx) (options ctx) w) as (init1 & Hsent1 & Htr1).
  rewrite Ha in Htr1. simpl in Htr1.
  destruct (retryLoop_trace that (url ctx) fuel (reset_body (options ctx)) R D (0 + 1) e
              (delay D w1).2 Hfuel) as (inits & _ & Htr & Hall & Hne & _).
  destruct inits as [|init2 inits]; [by destruct Hne; [lia|]|].
  apply Forall_cons in Hall as [Hsent2 _]. rewrite reset_body_idem in Hsent2.
  exists init1, init2.
  exists (match inits with
          | [] => []
          | _ => EvDelay D :: loop_events (url ctx) D inits
          end).
  split_and!.
  - rewrite Htr.
    change (trace (delay D w1).2) with (trace w1 ++ [EvDelay D]).
    rewrite Htr1. by rewrite <- !app_assoc.
  - by apply body_sent_as.
  - by rewrite (body_sent_as _ _ Hsent1), (body_sent_as _ _ Hsent2).
Qed.

(** The amended claim on a POST of a stream with [retries = 1], against a
    transport that fails every call. *)
Lemma retry_resubmits_same_body_witness :
  ∃ init1 init2 rest,
    trace (request commonRequest "/x" Scenario.post_stream
             (Scenario.start Scenario.failing)).2
    = [] ++ EvFetch "/x" init1 :: EvDelay 2000 :: EvFetch "/x" init2 :: rest
    ∧ body init1 = Scenario.stream
    ∧ body init2 = body init1.
Proof.
  apply (retry_resubmits_same_body commonRequest "/x" Scenario.post_stream
           (Scenario.start Scenario.failing)
           (Scenario.ctx_of Scenario.failing "/x" Scenario.post_stream)
           (Some Scenario.network_error)
           (attempt commonRequest "/x"
              (options (Scenario.ctx_of Scenario.failing "/x" Scenario.post_stream))
              (Scenario.start Scenario.failing)).2).
  - reflexivity.
  - split; reflexivity.
  - vm_compute. discriminate.
  - vm_compute. reflexivity.
  - reflexivity.
Defined.



(** ** Cancellation and deadline in the loop *)




(** The timer of a negative timeout does not beat a transport that settles
    at once: the response is returned. *)
Lemma instant_transport_beats_negative_timeout :
  (request commonRequest "/x" Cases.get_timeout_minus_1
     (Scenario.start (Cases.instant Scenario.response_200))).1
  = Fulfilled Scenario.response_200.
Proof. vm_compute. reflexivity. Qed.

(** ** Response interceptors and the three dispatch paths *)

(** C5, amended. Response interceptors are applied on the direct path only:
    there, in any iteration of the loop, the response of a successful attempt
    is passed through the registered response interceptors in reverse
    registration order, and what they return is what is delivered. On the
    download and on the upload paths no response interceptor is applied: the
    outcome of the request is the same whatever the registry of response
    interceptors holds. *)
Theorem response_interceptors_only_on_direct_path
  (that : CommonRequest) (urlStr : string) (opts : RequestOptions) (w : World)
  (ctx : RequestContext) :
  prepared that urlStr opts w ctx →
  ((onDownloadProgress (options ctx) ≠ None ∨ onUploadProgress (options ctx) ≠ None) →
   ∀ m', request (with_response_interceptors m' that) urlStr opts w
         = request that urlStr opts w)
  ∧ (direct (options ctx) →
     ∀ fuel o retries retryDelay attempts lastError wb res w1 final,
       attempts ≤ retries →
       attempt that (url ctx) o wb = (Fulfilled res, w1) →
       for_each (fun i r => complete (i r))
         (rev (Registry.callbacks (interceptors_response that))) res w1
       = (Fulfilled final, w1) →
       retryLoop (S fuel) that (url ctx) o retries retryDelay attempts lastError wb
       = (Fulfilled final, w1)).
Proof.
  intros Hprep. split.
  - intros Hprogress m'.
    assert (prepared (with_response_interceptors m' that) urlStr opts w ctx) as Hprep'
      by exact Hprep.
    rewrite (request_prepared _ _ _ _ _ Hprep), (request_prepared _ _ _ _ _ Hprep').
    unfold dispatch.
    destruct (onDownloadProgress (options ctx)) as [cb|]; [done|].
    destruct (onUploadProgress (options ctx)) as [cb|]; [done|].
    by destruct Hprogress.
  - intros _ fuel o retries retryDelay attempts lastError wb res w1 final Hle Ha Hi.
    eapply loop_success; [done|exact Ha|].
    by rewrite applyResponseInterceptors_for_each.
Qed.

(** The amended claim on a download with a marking response interceptor
    registered: with or without the interceptor, the download delivers the
    same thing. *)
Lemma response_interceptors_witness :
  request (with_response_interceptors InterceptorManager.new Scenario.marking)
    "/f" Scenario.download
    (Scenario.start (Scenario.answering Scenario.response_206))
  = request Scenario.marking "/f" Scenario.download
      (Scenario.start (Scenario.answering Scenario.response_206)).
Proof.
  apply (response_interceptors_only_on_direct_path Scenario.marking "/f"
           Scenario.download
           (Scenario.start (Scenario.answering Scenario.response_206))
           (Scenario.ctx_of (Scenario.answering Scenario.response_206) "/f"
              Scenario.download)).
  - reflexivity.
  - left. vm_compute. discriminate.
Defined.

(** ** Replayable bodies *)

(** The last two steps of normalisation leave the three body properties
    alone. *)
Lemma normalize_tail (o3 : RequestOptions) (f : list (string * string) → string) :
  let o4 := set_signal (default fresh_signal (signal o3)) o3 in
  let final := if method_is_GET o4 then
                 match params o4 with
                 | Some ps => set_options_url (f ps) o4
                 | None => o4
                 end
               else o4 in
  body final = body o3 ∧ bodyCopy final = bodyCopy o3 ∧ data final = data o3.
Proof.
  intros o4 final. unfold final.
  destruct (method_is_GET o4); [destruct (params o4)|]; done.
Qed.

(** Normalisation, seen from the options [o2] it holds once the body is
    set: [data] is never assigned, and [bodyCopy] is assigned exactly when
    the body is truthy and not reusable. *)
Lemma normalize_stages P o0 :
  ∃ o2,
    bodyCopy o2 = bodyCopy o0 ∧ data o2 = data o0
    ∧ body (normalizeRequestOptions P o0) = body o2
    ∧ data (normalizeRequestOptions P o0) = data o0
    ∧ bodyCopy (normalizeRequestOptions P o0)
      = if truthy (body o2) && negb (isBodyReusable (body o2))
        then structuredClone (body o2) else bodyCopy o0.
Proof.
  unfold normalizeRequestOptions. cbv zeta.
  match goal with
  | |- context [set_signal (default fresh_signal (signal ?o3)) ?o3] =>
      match o3 with
      | (if _ then set_bodyCopy _ ?o2 else _) => exists o2; set (o2' := o2)
      end
  end.
  match goal with
  | |- context [set_signal (default fresh_signal (signal ?o3)) ?o3] => set (o3' := o3)
  end.
  match goal with
  | |- context [URL_append P (default "" (nonempty (options_url ?o4)))] =>
      pose proof (normalize_tail o3'
                    (fun ps => URL_append P (default "" (nonempty (options_url o4))) ps))
        as (Hb & Hc & Hd)
  end.
  cbv zeta in Hb, Hc, Hd. rewrite Hb, Hc, Hd.
  assert (bodyCopy o2' = bodyCopy o0 ∧ data o2' = data o0) as [Hc2 Hd2].
  { unfold o2'. by destruct (includes _ _ && _ && _ && _ && _ && _ && _). }
  split_and!; [done|done|..]; unfold o3';
    destruct (truthy (body o2') && negb (isBodyReusable (body o2'))); done.
Qed.

Lemma normalize_data P o0 : data (normalizeRequestOptions P o0) = data o0.
Proof. by destruct (normalize_stages P o0) as (o2 & _ & _ & _ & ? & _). Qed.

Lemma normalize_bodyCopy P o0 :
  bodyCopy (normalizeRequestOptions P o0)
  = if truthy (body (normalizeRequestOptions P o0))
       && negb (isBodyReusable (body (normalizeRequestOptions P o0)))
    then structuredClone (body (normalizeRequestOptions P o0))
    else bodyCopy o0.
Proof.
  destruct (normalize_stages P o0) as (o2 & _ & _ & Hb & _ & Hc). by rewrite Hc, Hb.
Qed.

(** Normalisation takes a snapshot exactly for a truthy body that is not
    reusable. *)
Lemma snapshot_when_not_reusable P o0 :
  truthy (body (normalizeRequestOptions P o0)) = true →
  isBodyReusable (body (normalizeRequestOptions P o0)) = false →
  bodyCopy (normalizeRequestOptions P o0)
  = structuredClone (body (normalizeRequestOptions P o0)).
Proof. intros Ht Hr. by rewrite normalize_bodyCopy, Ht, Hr. Qed.

Lemma reset_body_no_copy options :
  bodyCopy options = JUndefined → reset_body options = options.
Proof. intros H. unfold reset_body. by rewrite H. Qed.

(** C8, amended. For a request on the direct path whose normalised body is
    replayable ([isBodyReusable]) and whose options bring no [bodyCopy],
    normalisation takes no snapshot: [bodyCopy] stays undefined and [data] is
    left as given. The body that normalisation produced is itself the body of
    every transport call of the loop, the first and each retry, and [data] is
    the same in all of them. *)
Theorem replayable_body_reused_without_snapshot
  (that : CommonRequest) (urlStr : string) (opts : RequestOptions) (w : World)
  (ctx : RequestContext) :
  prepared that urlStr opts w ctx →
  direct (options ctx) →
  options ctx = normalizeRequestOptions (platform w) (spread (defaults that) opts) →
  bodyCopy (spread (defaults that) opts) = JUndefined →
  isBodyReusable (body (options ctx)) = true →
  bodyCopy (options ctx) = JUndefined
  ∧ data (options ctx) = data (spread (defaults that) opts)
  ∧ ∃ inits,
      (0 ≤ default 0 (retries (options ctx)) → inits ≠ [])
      ∧ trace (request that urlStr opts w).2
        = trace w ++ loop_events (url ctx) (default 2000 (retryDelay (options ctx))) inits
      ∧ Forall (fun init => body init = body (options ctx)
                            ∧ data init = data (options ctx)) inits.
Proof.
  intros Hprep Hdirect Hopts Hcopy Hreusable.
  assert (bodyCopy (options ctx) = JUndefined) as Hnone.
  { rewrite Hopts, normalize_bodyCopy. rewrite <- Hopts, Hreusable.
    by rewrite andb_false_r. }
  split_and!; [done|by rewrite Hopts, normalize_data|].
  rewrite (request_prepared _ _ _ _ _ Hprep), dispatch_direct by done.
  destruct (retryLoop_trace that (url ctx) _ (options ctx)
              (default 0 (retries (options ctx)))
              (default 2000 (retryDelay (options ctx))) 0 None w (le_n _))
    as (inits & _ & Htr & Hall & Hne & _).
  exists inits. split_and!; [done|done|].
  rewrite reset_body_no_copy in Hall by done.
  eapply Forall_impl; [exact Hall|]. by intros init [c ->].
Qed.

(** The amended claim on a POST of the text ['hi'] with [retries = 1],
    against a transport that fails every call: no snapshot, and each call of
    the trace carries the text itself. *)
Lemma replayable_body_witness :
  bodyCopy (options (Scenario.ctx_of Scenario.failing "/x" Scenario.post_text))
  = JUndefined
  ∧ ∃ inits,
      trace (request commonRequest "/x" Scenario.post_text
               (Scenario.start Scenario.failing)).2
      = [] ++ loop_events "/x" 2000 inits
      ∧ Forall (fun init => body init = JString "hi" ∧ data init = JString "hi") inits.
Proof.
  destruct (replayable_body_reused_without_snapshot commonRequest "/x"
              Scenario.post_text (Scenario.start Scenario.failing)
              (Scenario.ctx_of Scenario.failing "/x" Scenario.post_text))
    as (Hnone & _ & inits & _ & Htr & Hall).
  - reflexivity.
  - split; reflexivity.
  - reflexivity.
  - reflexivity.
  - reflexivity.
  - split; [exact Hnone|]. exists inits. split; [exact Htr|exact Hall].
Defined.

(** ** The progress paths *)

Lemma progress_counts (evs : list Event) :
  Forall (fun e => is_progress e = true) evs →
  fetch_calls evs = 0%nat ∧ xhr_sends evs = 0%nat ∧ delays evs = 0%nat.
Proof.
  induction 1 as [|e evs He _ IH]; [done|].
  unfold fetch_calls, xhr_sends, delays in *. by destruct e.
Qed.

Lemma read_progress_trace cb total chunks : ∀ received w,
  ∃ evs,
    Forall (fun e => is_progress e = true) evs
    ∧ trace (read_progress cb total chunks received w).2 = trace w ++ evs.
Proof.
  induction chunks as [|value chunks IH]; intros received w.
  - exists []. by rewrite app_nil_r.
  - cbn [read_progress]. unfold bind, emit.
    match goal with
    | |- context [log ?e w] => set (ev := e)
    end.
    destruct (IH (received + Z.of_nat (length value)) (log ev w)) as (evs & Hall & Htr).
    exists (ev :: evs). split; [by constructor|].
    rewrite Htr. simpl. by rewrite <- app_assoc.
Qed.

Lemma rethrow_classified_world {A} userSignal err w :
  (rethrow_classified (A := A) userSignal err w).2 = w.
Proof.
  unfold rethrow_classified. destruct err as [e|]; [|done].
  destruct (String.eqb _ _); [|done].
  unfold bind, clock. by destruct (match userSignal with Some _ => _ | None => _ end).
Qed.

(** A download is one transport call and the progress reports of its
    chunks. *)
Lemma downloadWithProgress_trace url options cb w :
  ∃ init evs,
    Forall (fun e => is_progress e = true) evs
    ∧ trace (downloadWithProgress url options cb w).2
      = trace w ++ EvFetch url init :: evs.
Proof.
  unfold downloadWithProgress, bind, clock, try_catch.
  set (init := set_signal _ options).
  pose proof (fetch_trace url init w) as Htr.
  destruct (fetch url init w) as [[res|e| |] w1]; simpl in Htr.
  - destruct (Response.body res) as [chunks|].
    + destruct (Response.ok res).
      * unfold Response.tee.
        destruct (read_progress_trace cb
                    match nonempty (Headers_get (Response.headers res) "Content-Length") with
                    | Some s => parseInt10 s
                    | None => None
                    end chunks 0 w1) as (evs & Hall & Hevs).
        exists init, evs. split; [done|].
        destruct (read_progress _ _ _ _ w1) as [[[]|e| |] w2]; simpl in *;
          rewrite ?rethrow_classified_world, Hevs, Htr; by rewrite <- app_assoc.
      * exists init, []. split; [done|].
        unfold throw. by rewrite rethrow_classified_world.
    + exists init, []. split; [done|].
      unfold throw. by rewrite rethrow_classified_world.
  - exists init, []. split; [done|]. by rewrite rethrow_classified_world.
  - by exists init, [].
  - by exists init, [].
Qed.

Lemma upload_progress_trace cb t0 endAt events : ∀ w,
  ∃ evs,
    Forall (fun e => is_progress e = true) evs
    ∧ trace (upload_progress cb t0 endAt events w).2 = trace w ++ evs.
Proof.
  induction events as [|ev events IH]; intros w.
  - exists []. by rewrite app_nil_r.
  - cbn [upload_progress]. destruct (_ && _); [|apply IH].
    unfold bind, emit.
    match goal with
    | |- context [log ?e w] => set (ev' := e)
    end.
    destruct (IH (log ev' w)) as (evs & Hall & Htr).
    exists (ev' :: evs). split; [by constructor|].
    rewrite Htr. simpl. by rewrite <- app_assoc.
Qed.

Lemma onreadystatechange_world P c w : (onreadystatechange P c w).2 = w.
Proof. unfold onreadystatechange. repeat case_match; done. Qed.

(** An upload whose options hold a [Headers] object is one [send] and the
    progress reports of the transport. *)
Lemma uploadWithProgress_trace that url options cb w :
  is_Some (headers options) →
  ∃ x evs,
    Forall (fun e => is_progress e = true) evs
    ∧ trace (uploadWithProgress that url options cb w).2
      = trace w ++ EvXhrSend x :: evs.
Proof.
  intros [hs Hhs]. unfold uploadWithProgress. rewrite Hhs.
  set (x := {| xhr_method := _ |}).
  destruct (send_throws _).
  - destruct (name_assignment_fails _); by exists x, [].
  - set (e := xhr_end _ _ _ _).
    unfold bind.
    destruct (upload_progress_trace cb (now w) (xhr_end_at e)
                (upload_events (xhr_behaviour (platform w) (xhr_sends (trace w)) x))
                (log (EvXhrSend x) w)) as (evs & Hall & Htr).
    exists x, evs. split; [done|].
    destruct (upload_progress _ _ _ _ _) as [[[]|err| |] w2]; simpl in *;
      try (rewrite Htr; by rewrite <- app_assoc).
    destruct e; simpl; rewrite ?onreadystatechange_world; simpl;
      rewrite Htr; by rewrite <- app_assoc.
Qed.

Lemma one_transport_event (tr evs : list Event) (e : Event) :
  is_fetch e || is_xhr_send e = true →
  Forall (fun e => is_progress e = true) evs →
  transport_attempts (tr ++ e :: evs) = S (transport_attempts tr)
  ∧ delays (tr ++ e :: evs) = delays tr.
Proof.
  intros He Hevs. destruct (progress_counts evs Hevs) as (Hf & Hx & Hd).
  unfold transport_attempts.
  change (e :: evs) with ([e] ++ evs).
  rewrite !fetch_calls_app, !xhr_sends_app, !delays_app, Hf, Hx, Hd.
  unfold fetch_calls, xhr_sends, delays. destruct e; try done; simpl; lia.
Qed.

(** C10 as stated fails. An upload through an instance whose request
    interceptor returns the options without their headers: the progress
    callback is configured, and no transport attempt is made; the request
    rejects with a [TypeError] before anything is sent. *)
Lemma upload_without_headers_makes_no_attempt :
  let w := Scenario.start Scenario.failing_upload in
  let r := request Cases.dropping "/u" Scenario.upload w in
  onUploadProgress Scenario.upload = Some 0%nat
  ∧ transport_attempts (trace r.2) = 0%nat
  ∧ r.1 = Rejected (Some {| name := "TypeError";
                            message := "Cannot read properties of undefined (reading 'forEach')" |}).
Proof. vm_compute. split_and!; reflexivity. Qed.

(** C10, amended. When the dispatched options hold a download or an upload
    progress callback, [request] is the call of the corresponding progress
    function (download first when both are set). On the download path, and
    on the upload path when the options hold a [Headers] object, whatever
    the transport does and whatever [retries] and [retryDelay] are, it makes
    exactly one transport attempt and waits for no retry delay. On the
    upload path with no headers in the options it rejects with a
    [TypeError] and nothing is sent. *)
Theorem progress_paths_make_one_attempt
  (that : CommonRequest) (urlStr : string) (opts : RequestOptions) (w : World)
  (ctx : RequestContext) :
  prepared that urlStr opts w ctx →
  onDownloadProgress (options ctx) ≠ None ∨ onUploadProgress (options ctx) ≠ None →
  match onDownloadProgress (options ctx), onUploadProgress (options ctx) with
  | Some cb, _ =>
      request that urlStr opts w = downloadWithProgress (url ctx) (options ctx) cb w
  | None, Some cb =>
      request that urlStr opts w = uploadWithProgress that (url ctx) (options ctx) cb w
  | None, None => False
  end
  ∧ (onDownloadProgress (options ctx) ≠ None ∨ is_Some (headers (options ctx)) →
     transport_attempts (trace (request that urlStr opts w).2)
     = S (transport_attempts (trace w))
     ∧ delays (trace (request that urlStr opts w).2) = delays (trace w))
  ∧ (onDownloadProgress (options ctx) = None → headers (options ctx) = None →
     ∃ e, request that urlStr opts w = (Rejected (Some e), w)
          ∧ name e = "TypeError").
Proof.
  intros Hprep Hprogress.
  rewrite (request_prepared _ _ _ _ _ Hprep). unfold dispatch.
  destruct (onDownloadProgress (options ctx)) as [cb|].
  - split; [done|]. split; [|done]. intros _.
    destruct (downloadWithProgress_trace (url ctx) (options ctx) cb w)
      as (init & evs & Hall & ->).
    by apply one_transport_event.
  - destruct (onUploadProgress (options ctx)) as [cb|]; [|by destruct Hprogress].
    split; [done|]. split.
    + intros [Hno|Hheaders]; [done|].
      destruct (uploadWithProgress_trace that (url ctx) (options ctx) cb w Hheaders)
        as (x & evs & Hall & ->).
      by apply one_transport_event.
    + intros _ Hnone. unfold uploadWithProgress. rewrite Hnone.
      eexists. split; reflexivity.
Qed.

(** C10 on [retries = 3]: a download against a transport that fails with a
    plain network error makes one call, waits for no delay and delivers the
    error; an upload whose exchange ends in a network error makes one
    [send] and waits for no delay. *)
Lemma progress_paths_witness :
  let r := request commonRequest "/f" Scenario.download
             (Scenario.start Scenario.failing) in
  let u := request commonRequest "/f" Scenario.upload
             (Scenario.start Scenario.failing_upload) in
  (transport_attempts (trace r.2) = 1%nat
   ∧ delays (trace r.2) = 0%nat
   ∧ r.1 = Rejected (Some Scenario.network_error))
  ∧ (transport_attempts (trace u.2) = 1%nat
     ∧ delays (trace u.2) = 0%nat
     ∧ xhr_sends (trace u.2) = 1%nat).
Proof.
  split.
  - destruct (progress_paths_make_one_attempt commonRequest "/f" Scenario.download
                (Scenario.start Scenario.failing)
                (Scenario.ctx_of Scenario.failing "/f" Scenario.download))
      as (_ & Hone & _).
    + reflexivity.
    + left. vm_compute. discriminate.
    + destruct Hone as [Hone Hdelays].
      { left. vm_compute. discriminate. }
      split_and!; [exact Hone|exact Hdelays|reflexivity].
  - destruct (progress_paths_make_one_attempt commonRequest "/f" Scenario.upload
                (Scenario.start Scenario.failing_upload)
                (Scenario.ctx_of Scenario.failing_upload "/f" Scenario.upload))
      as (_ & Hone & _).
    + reflexivity.
    + right. vm_compute. discriminate.
    + destruct Hone as [Hone Hdelays].
      { right. vm_compute. eexists. reflexivity. }
      split_and!; [exact Hone|exact Hdelays|vm_compute; reflexivity].
Defined.

(* ===================================================================== *)
(** * Further properties of the code *)
(* ===================================================================== *)

(** ** The registry: ids, ejection, reverse traversal *)

Section registry_more.
Context {T : Type}.
Implicit Types (m : InterceptorManager.t T) (es : list (nat * T)).
Implicit Types (calls : list (Registry.call T)).

Lemma replay_issued calls : ∀ m,
  Registry.issued (Registry.replay calls m).1
  = seq (InterceptorManager.nextId m) (uses calls)
  ∧ InterceptorManager.nextId (Registry.replay calls m).2
    = (InterceptorManager.nextId m + uses calls)%nat.
Proof.
  induction calls as [|[interceptor|id] calls IH]; intros m; simpl.
  - split; [done|lia].
  - destruct (IH (InterceptorManager.use interceptor m).2) as [Hi Hn].
    destruct (Registry.replay calls _) as [h m']. simpl in *.
    rewrite Hi, Hn. split; [done|lia].
  - destruct (IH (InterceptorManager.eject id m)) as [Hi Hn].
    destruct (Registry.replay calls _) as [h m']. simpl in *.
    rewrite Hi, Hn. done.
Qed.

(** After any calls, the registry is represented by the registrations in
    force. *)
Lemma replay_new_represents calls :
  represents (Registry.registered (Registry.replay calls InterceptorManager.new).1)
             (Registry.replay calls InterceptorManager.new).2.
Proof.
  destruct (replay_represents calls InterceptorManager.new [] represents_new)
    as (Hrep & _ & _).
  by rewrite filter_nil, app_nil_l in Hrep.
Qed.

Lemma filter_ne_absent (id : nat) (l : list nat) :
  id ∉ l → filter (fun i => i ≠ id) l = l.
Proof.
  induction l as [|x l IH]; intros Hnot; [done|].
  rewrite filter_cons. apply not_elem_of_cons in Hnot as [Hne Hnot].
  rewrite decide_True by congruence. by rewrite IH.
Qed.

Lemma eject_absent es m id :
  represents es m → id ∉ es.*1 → InterceptorManager.eject id m = m.
Proof.
  intros (Hids & Hmap & _ & _) Hnot. destruct m as [ints ids next]. simpl in *.
  unfold InterceptorManager.eject. simpl. f_equal.
  - apply delete_id. (* the map holds nothing under [id] *)
    rewrite Hmap. by apply not_elem_of_list_to_map_1.
  - apply filter_ne_absent. by rewrite Hids.
Qed.
End registry_more.

(** X1. [use] hands out 0, 1, 2, ... in call order, whatever was ejected in
    between, and [nextId] is the number of [use] calls made so far. *)
Theorem use_returns_consecutive_ids {T : Type} (calls : list (Registry.call T)) :
  Registry.issued (Registry.replay calls InterceptorManager.new).1 = seq 0 (uses calls)
  ∧ InterceptorManager.nextId (Registry.replay calls InterceptorManager.new).2
    = uses calls.
Proof. apply (replay_issued calls InterceptorManager.new). Qed.

(** [eject] is idempotent on any registry. *)
Theorem eject_idempotent {T : Type} (m : InterceptorManager.t T) (id : nat) :
  InterceptorManager.eject id (InterceptorManager.eject id m)
  = InterceptorManager.eject id m.
Proof.
  unfold InterceptorManager.eject. simpl. f_equal.
  - apply delete_id. apply lookup_delete_eq.
  - apply filter_ne_absent. intros Hin. by apply list_elem_of_filter in Hin as [? _].
Qed.

(** X2. Ejecting an id that is not in force (never handed out, or ejected
    already) leaves a registry built by [use]/[eject] calls exactly as it
    is. *)
Theorem eject_unknown_is_noop {T : Type} (calls : list (Registry.call T)) (id : nat) :
  id ∉ (Registry.registered (Registry.replay calls InterceptorManager.new).1).*1 →
  InterceptorManager.eject id (Registry.replay calls InterceptorManager.new).2
  = (Registry.replay calls InterceptorManager.new).2.
Proof. intros Hnot. eapply eject_absent; [apply replay_new_represents|done]. Qed.

(** Ejecting an id that was never handed out, after one [use] and one
    [eject]. *)
Lemma eject_unknown_witness :
  let m := (Registry.replay [Registry.Use 7%nat; Registry.Use 8%nat; Registry.Eject 0%nat]
              InterceptorManager.new).2 in
  InterceptorManager.eject 5%nat m = m ∧ InterceptorManager.eject 0%nat m = m.
Proof.
  split.
  - apply (eject_unknown_is_noop
             [Registry.Use 7%nat; Registry.Use 8%nat; Registry.Eject 0%nat] 5%nat).
    vm_compute. intros H. repeat (inversion H as [|? ? ? H']; subst; clear H; rename H' into H).
  - apply (eject_unknown_is_noop
             [Registry.Use 7%nat; Registry.Use 8%nat; Registry.Eject 0%nat] 0%nat).
    vm_compute. intros H. repeat (inversion H as [|? ? ? H']; subst; clear H; rename H' into H).
Defined.

(** X3. Registering a callback and ejecting the id just returned restores the
    callbacks and the id array; only [nextId] has moved on, so the id is not
    handed out again. *)
Theorem use_then_eject_restores {T : Type} (calls : list (Registry.call T))
        (interceptor : T) :
  let m := (Registry.replay calls InterceptorManager.new).2 in
  InterceptorManager.eject (InterceptorManager.use interceptor m).1
    (InterceptorManager.use interceptor m).2
  = {| InterceptorManager.interceptors := InterceptorManager.interceptors m;
       InterceptorManager.interceptorIds := InterceptorManager.interceptorIds m;
       InterceptorManager.nextId := S (InterceptorManager.nextId m) |}.
Proof.
  intros m. pose proof (replay_new_represents calls) as (Hids & Hmap & _ & Hlt).
  fold m in Hids, Hmap, Hlt.
  assert (InterceptorManager.nextId m
          ∉ (Registry.registered (Registry.replay calls InterceptorManager.new).1).*1)
    as Hfresh.
  { intros Hin. rewrite Forall_forall in Hlt. specialize (Hlt _ Hin). lia. }
  unfold InterceptorManager.eject, InterceptorManager.use. simpl. f_equal.
  - apply delete_insert_id. rewrite Hmap. by apply not_elem_of_list_to_map_1.
  - rewrite filter_app, filter_cons, filter_nil.
    rewrite decide_False by (intros Hne; by apply Hne).
    rewrite app_nil_r. apply filter_ne_absent. by rewrite Hids.
Qed.

(** X4. A reverse traversal of a registry built by [use]/[eject] calls runs its
    function on the callbacks in force in the exact reverse of the order a
    forward traversal takes. *)
Theorem reverse_traversal_is_forward_reversed {T : Type}
        (calls : list (Registry.call T)) :
  let h := (Registry.replay calls InterceptorManager.new).1 in
  let m := (Registry.replay calls InterceptorManager.new).2 in
  ∀ (W S : Type) (fn : T → S → Task W S) (acc : S) (w : W),
    InterceptorManager.forEachReverseAsync m fn acc w
    = for_each fn (rev (Registry.registered h).*2) acc w.
Proof.
  intros h m W S fn acc w. subst h m. rewrite forEachReverseAsync_for_each.
  by rewrite (callbacks_represents _ _ (replay_new_represents calls)).
Qed.

(** ** Normalisation of the options *)

Ltac normalize_cases :=
  unfold normalizeRequestOptions; cbv zeta;
  destruct (nonempty (detectContentType _));
  try destruct (String.eqb (default "" _) "");
  destruct (includes _ _ && _ && _ && _ && _ && _ && _);
  simpl;
  repeat match goal with
         | |- context [if ?b then _ else _] => destruct b
         | |- context [match ?x with Some _ => _ | None => _ end] => destruct x
         end.

Lemma normalize_shape P o0 :
  ∃ h b c u,
    normalizeRequestOptions P o0
    = {| requestType := requestType o0; responseType := responseType o0;
         timeout := timeout o0; retries := retries o0; retryDelay := retryDelay o0;
         onUploadProgress := onUploadProgress o0;
         onDownloadProgress := onDownloadProgress o0;
         signal := Some (default fresh_signal (signal o0));
         params := params o0; data := data o0; body := b; bodyCopy := c;
         method := method o0; headers := Some h; options_url := u;
         undefined_keys := undefined_keys o0 |}.
Proof. normalize_cases; eexists _, _, _, _; reflexivity. Qed.

Lemma normalize_headers P o0 :
  headers (normalizeRequestOptions P o0)
  = Some match nonempty (detectContentType (data o0)) with
         | Some ct =>
             if String.eqb (contentTypeExisting o0) ""
             then Headers_set (normalizeHeaders (headers o0)) "Content-Type" ct
             else normalizeHeaders (headers o0)
         | None => normalizeHeaders (headers o0)
         end.
Proof. unfold contentTypeExisting. normalize_cases; reflexivity. Qed.

Lemma normalize_body P o0 :
  body (normalizeRequestOptions P o0)
  = if shouldStringify o0 then JSON_stringify (data o0) else data o0.
Proof. unfold shouldStringify, contentTypeExisting. normalize_cases; reflexivity. Qed.

Lemma normalize_untouched P o0 :
  timeout (normalizeRequestOptions P o0) = timeout o0
  ∧ retries (normalizeRequestOptions P o0) = retries o0
  ∧ retryDelay (normalizeRequestOptions P o0) = retryDelay o0
  ∧ onUploadProgress (normalizeRequestOptions P o0) = onUploadProgress o0
  ∧ onDownloadProgress (normalizeRequestOptions P o0) = onDownloadProgress o0
  ∧ params (normalizeRequestOptions P o0) = params o0
  ∧ data (normalizeRequestOptions P o0) = data o0
  ∧ method (normalizeRequestOptions P o0) = method o0
  ∧ signal (normalizeRequestOptions P o0) = Some (default fresh_signal (signal o0)).
Proof.
  destruct (normalize_shape P o0) as (h & b & c & u & Heq). rewrite Heq. by split_and!.
Qed.

(** X5. Normalisation leaves the timeout, the retry policy, the progress
    callbacks, the params, the data and the method as given, and always
    returns a signal: the caller's when there is one. *)
Theorem normalize_keeps_policy_and_signal (P : Platform) (o0 : RequestOptions) :
  timeout (normalizeRequestOptions P o0) = timeout o0
  ∧ retries (normalizeRequestOptions P o0) = retries o0
  ∧ retryDelay (normalizeRequestOptions P o0) = retryDelay o0
  ∧ onUploadProgress (normalizeRequestOptions P o0) = onUploadProgress o0
  ∧ onDownloadProgress (normalizeRequestOptions P o0) = onDownloadProgress o0
  ∧ params (normalizeRequestOptions P o0) = params o0
  ∧ data (normalizeRequestOptions P o0) = data o0
  ∧ method (normalizeRequestOptions P o0) = method o0
  ∧ signal (normalizeRequestOptions P o0) = Some (default fresh_signal (signal o0)).
Proof. apply normalize_untouched. Qed.

Lemma stringify_object v :
  typeof v = TObject → ∃ s, JSON_stringify v = JString s.
Proof.
  unfold JSON_stringify. destruct v; try discriminate; intros _; simpl; by eexists.
Qed.

Lemma JsType_eqb_eq a b : JsType_eqb a b = true ↔ a = b.
Proof. destruct a, b; simpl; split; congruence. Qed.

(** X6. The snapshot ([bodyCopy]) that normalisation leaves depends on [data]
    alone: it is [data] itself when [data] is [true] or a number other than 0,
    and the [bodyCopy] the options came with for every other value, streams,
    objects and strings included. *)
Theorem normalize_snapshot_by_data (P : Platform) (o0 : RequestOptions) :
  bodyCopy (normalizeRequestOptions P o0)
  = default (bodyCopy o0) (snapshot_of (data o0)).
Proof.
  rewrite normalize_bodyCopy, normalize_body.
  destruct (shouldStringify o0) eqn:Hs.
  - unfold shouldStringify in Hs. repeat (apply andb_true_iff in Hs as [Hs ?]).
    assert (typeof (data o0) = TObject) as Hobj by by apply JsType_eqb_eq.
    destruct (stringify_object _ Hobj) as [s ->].
    assert (isBodyReusable (JString s) = true) as ->.
    { unfold isBodyReusable. simpl. by destruct (String.eqb s ""). }
    rewrite andb_false_r. by destruct (data o0).
  - destruct (data o0) as [| |[]|n|s| | | | | | | |]; try reflexivity.
    + simpl. unfold isBodyReusable. simpl. by destruct (n =? 0).
    + unfold isBodyReusable. simpl. by destruct (String.eqb s "").
Qed.

(** ** Content type and serialisation *)

Lemma filter_header_absent key (h : Headers) :
  List.filter (header_is key) (List.filter (fun kv => negb (header_is key kv)) h) = [].
Proof.
  induction h as [|kv h IH]; [done|]. simpl.
  destruct (header_is key kv) eqn:Hk; simpl; [done|]. by rewrite Hk.
Qed.

(** Reading a header just set gives the value set. *)
Lemma Headers_get_set (h : Headers) key value :
  Headers_get (Headers_set h key value) key = Some value.
Proof.
  unfold Headers_get, Headers_set. rewrite List.filter_app, filter_header_absent.
  simpl. unfold header_is at 1. simpl. by rewrite String.eqb_refl.
Qed.

Lemma detectContentType_nonempty v ct :
  detectContentType v = Some ct → nonempty (Some ct) = Some ct.
Proof.
  unfold detectContentType.
  destruct v; simpl; intros [= <-]; try reflexivity.
  destruct (String.eqb type "") eqn:Ht; simpl; [done|]. by rewrite Ht.
Qed.

(** X7. A Content-Type given by the caller is never replaced, and a FormData
    body is never given one: in both cases the headers after normalisation
    are the caller's headers. *)
Theorem normalize_keeps_given_content_type (P : Platform) (o0 : RequestOptions) :
  contentTypeExisting o0 ≠ "" ∨ instanceof_FormData (data o0) = true →
  headers (normalizeRequestOptions P o0) = Some (normalizeHeaders (headers o0)).
Proof.
  intros Hgiven. rewrite normalize_headers. f_equal.
  destruct Hgiven as [Hne|Hform].
  - destruct (nonempty (detectContentType (data o0))); [|done].
    by rewrite (proj2 (String.eqb_neq _ _) Hne).
  - destruct (data o0); try discriminate. reflexivity.
Qed.

(** X8. When the caller gives no Content-Type and [detectContentType] finds one
    for the data, that is the Content-Type of the normalised headers. *)
Theorem normalize_sets_detected_content_type
        (P : Platform) (o0 : RequestOptions) (ct : string) :
  contentTypeExisting o0 = "" →
  detectContentType (data o0) = Some ct →
  ∃ h, headers (normalizeRequestOptions P o0) = Some h
       ∧ Headers_get h "Content-Type" = Some ct.
Proof.
  intros Hnone Hct. rewrite normalize_headers, Hct.
  rewrite (detectContentType_nonempty _ _ Hct), Hnone. simpl.
  eexists. split; [reflexivity|]. apply Headers_get_set.
Qed.

(** X9. A FormData, Blob, ArrayBuffer or URLSearchParams body, and any value
    that is not an object, is never serialised: it is the body of the
    normalised options as it is, whatever the Content-Type says. *)
Theorem normalize_passes_body_through (P : Platform) (o0 : RequestOptions) :
  never_stringified (data o0) = true ∨ typeof (data o0) ≠ TObject →
  body (normalizeRequestOptions P o0) = data o0.
Proof.
  intros Hpass. rewrite normalize_body.
  assert (shouldStringify o0 = false) as ->; [|done].
  unfold shouldStringify. destruct Hpass as [Hnever|Htype].
  - unfold never_stringified in Hnever.
    destruct (data o0); try discriminate; simpl; by rewrite ?andb_false_r.
  - destruct (JsType_eqb (typeof (data o0)) TObject) eqn:Ht.
    + by apply JsType_eqb_eq in Ht.
    + by rewrite ?andb_false_r, ?andb_false_l.
Qed.

(** X10. A plain object, an array, [null], a typed array or a stream is
    serialised when, and only when, the Content-Type the caller gave
    mentions [application/json], in any letter case. *)
Theorem normalize_serialises_objects_under_json (P : Platform) (o0 : RequestOptions) :
  typeof (data o0) = TObject →
  never_stringified (data o0) = false →
  body (normalizeRequestOptions P o0)
  = if includes "application/json" (toLowerCase (contentTypeExisting o0))
    then JSON_stringify (data o0) else data o0.
Proof.
  intros Htype Hnever. rewrite normalize_body. unfold shouldStringify.
  unfold never_stringified in Hnever.
  destruct (data o0); try discriminate; simpl; by rewrite ?andb_true_r.
Qed.

(** ** The timeout property of the instance *)

(** X11. After [request.timeout = v], a request whose options give no timeout, or
    the timeout 0, runs under the deadline [v]; a request that gives another
    timeout runs under its own. The interceptors are not touched. *)
Theorem timeout_setter_sets_default_deadline
        (that : CommonRequest) (v : Z) (opts : RequestOptions) (P : Platform) :
  get_timeout (set_timeout v that) = v
  ∧ effective_timeout (set_timeout v that)
      (normalizeRequestOptions P (spread (defaults (set_timeout v that)) opts))
    = match timeout opts with
      | Some t => if t =? 0 then v else t
      | None => v
      end
  ∧ interceptors_request (set_timeout v that) = interceptors_request that
  ∧ interceptors_response (set_timeout v that) = interceptors_response that.
Proof.
  split_and!; try reflexivity.
  unfold effective_timeout.
  destruct (normalize_untouched P
              (spread (defaults (set_timeout v that)) opts)) as (-> & _).
  simpl. destruct (timeout opts) as [t|]; simpl; [done|].
  destruct (given_undefined "timeout" opts); simpl; [done|].
  by destruct (v =? 0).
Qed.

(** ** Deadline edge cases *)

(** X12. An [AbortError] that comes from the transport itself, with the caller's
    signal not fired and the deadline not reached (or no deadline at all), is
    reported as a [TimeoutError]: the [catch] block takes every abort that is
    not the caller's for a timeout. *)
Theorem transport_abort_is_reported_as_timeout
        (resource : string) (options : RequestOptions) (timeout : Z)
        (userSignal : option AbortSignal) (w : World) (latency : Z) (e : JsError) :
  (∀ init, fetch_behaviour (platform w) (fetch_calls (trace w)) resource init
           = (latency, Rejects e)) →
  name e = "AbortError" →
  (timeout = 0 ∨ (0 < timeout ∧ Z.max 0 latency ≤ timeout)) →
  (∀ t, user_fires_at userSignal = Some t → now w + Z.max 0 latency < t) →
  (timeoutPromise resource options timeout userSignal w).1
  = Rejected (Some timeout_error).
Proof.
  intros Hb Hname Htimer Huser. rewrite timeoutPromise_unfold. unfold try_catch.
  rewrite (fetch_settles _ _ _ latency (Rejects e) (Hb _)).
  - unfold rethrow_classified. rewrite Hname. simpl. unfold bind, clock. simpl.
    assert (match userSignal with
            | Some s => aborted s (Z.max (now w) (now w + Z.max 0 latency))
            | None => false
            end = false) as ->; [|done].
    unfold aborted, user_fires_at in *.
    destruct userSignal as [[[tu|]]|]; simpl; [|done..].
    specialize (Huser tu eq_refl). apply Z.leb_gt. lia.
  - unfold fires_at. rewrite signal_set_signal.
    apply derived_signal_undisturbed. split; [|done].
    intros t Ht. specialize (Huser t Ht). lia.
Qed.

Lemma timeout_reset_body options : timeout (reset_body options) = timeout options.
Proof. unfold reset_body. by destruct (truthy _). Qed.

Lemma signal_reset_body options : signal (reset_body options) = signal options.
Proof. unfold reset_body. by destruct (truthy _). Qed.

(** X13. With the timeout of the instance at 0 and no timeout (or 0) in the
    options, an attempt has no deadline: however long the transport takes,
    the attempt ends as the transport does, at the instant it does. *)
Theorem no_deadline_when_timeouts_are_zero
        (that : CommonRequest) (url : string) (options : RequestOptions) (w : World)
        (latency : Z) (result : FetchResult) :
  get_timeout that = 0 →
  timeout options = None ∨ timeout options = Some 0 →
  user_fires_at (signal options) = None →
  (∀ init, fetch_behaviour (platform w) (fetch_calls (trace w)) url init
           = (latency, result)) →
  (∀ e, result = Rejects e → String.eqb (name e) "AbortError" = false) →
  (attempt that url options w).1
  = match result with
    | Resolves r => Fulfilled r
    | Rejects e => Rejected (Some e)
    end
  ∧ now (attempt that url options w).2 = Z.max (now w) (now w + Z.max 0 latency).
Proof.
  intros Hthat Hopt Hnever Hb Hplain. unfold attempt.
  assert (effective_timeout that (reset_body options) = 0) as ->.
  { unfold effective_timeout. rewrite timeout_reset_body.
    destruct Hopt as [-> | ->]; by simpl. }
  rewrite (timeoutPromise_undisturbed _ _ _ _ _ latency result Hb); [done| |done].
  split; [|by left]. rewrite signal_reset_body, Hnever. done.
Qed.

(** ** The retry loop: bounds and failures of the interceptors *)

(** X14. With a negative [retries] the loop is never entered: the request rejects
    with [null] (the initial [lastError]) and the transport is not called. *)
Theorem negative_retries_reject_with_null
        (that : CommonRequest) (urlStr : string) (opts : RequestOptions) (w : World)
        (ctx : RequestContext) :
  prepared that urlStr opts w ctx →
  direct (options ctx) →
  default 0 (retries (options ctx)) < 0 →
  request that urlStr opts w = (Rejected None, w).
Proof.
  intros Hprep Hdirect Hneg.
  rewrite (request_prepared _ _ _ _ _ Hprep), dispatch_direct by done.
  by apply loop_exit.
Qed.

(** X15. However the calls of the transport are answered and whatever the
    response interceptors return or throw, a request on the direct path
    calls the transport at most [retries + 1] times (at least once unless
    [retries] is negative), never uses the upload transport, and waits
    exactly once between two consecutive calls. *)
Theorem direct_request_attempts_bounded
        (that : CommonRequest) (urlStr : string) (opts : RequestOptions) (w : World)
        (ctx : RequestContext) :
  prepared that urlStr opts w ctx →
  direct (options ctx) →
  ∃ n : nat,
    fetch_calls (trace (request that urlStr opts w).2) = (fetch_calls (trace w) + n)%nat
    ∧ (n ≤ Z.to_nat (default 0 (retries (options ctx)) + 1)%Z)%nat
    ∧ ((0 ≤ default 0 (retries (options ctx)))%Z → (1 ≤ n)%nat)
    ∧ delays (trace (request that urlStr opts w).2) = (delays (trace w) + pred n)%nat
    ∧ xhr_sends (trace (request that urlStr opts w).2) = xhr_sends (trace w).
Proof.
  intros Hprep Hdirect.
  rewrite (request_prepared _ _ _ _ _ Hprep), dispatch_direct by done.
  destruct (retryLoop_trace that (url ctx) _ (options ctx)
              (default 0 (retries (options ctx)))
              (default 2000 (retryDelay (options ctx))) 0 None w (le_n _))
    as (inits & Hs & Htr & _ & Hne & Hlen).
  exists (length inits). rewrite Htr.
  rewrite fetch_calls_app, delays_app, xhr_sends_app.
  rewrite fetch_calls_loop_events, delays_loop_events, xhr_sends_loop_events.
  split_and!; [done| |  |done|lia].
  - unfold enough_fuel in Hlen. by rewrite Z.sub_0_r in Hlen.
  - intros Hpos. specialize (Hne Hpos). destruct inits; [done|simpl; lia].
Qed.

(** X16. The response interceptors run inside the [try] block: when one of them
    throws on the response of a successful attempt, with a name other than
    [AbortError] and [TimeoutError] and attempts left, the loop waits and
    calls the transport again, as after a failed attempt. *)
Theorem response_interceptor_failure_is_retried
        (that : CommonRequest) (url : string) (options : RequestOptions) (fuel : nat)
        (retries retryDelay attempts : Z) (lastError : Thrown) (w : World)
        (res : Response.t) (w1 : World) (e : Thrown) :
  attempts < retries →
  attempt that url options w = (Fulfilled res, w1) →
  (applyResponseInterceptors that res w1).1 = Rejected e →
  is_cancellation e = false →
  retryLoop (S fuel) that url options retries retryDelay attempts lastError w
  = retryLoop fuel that url (reset_body options) retries retryDelay (attempts + 1) e
      (delay retryDelay w1).2.
Proof.
  intros Hlt Ha Hi Hplain. rewrite retryLoop_unfold by lia.
  unfold try_block, bind. unfold attempt in Ha. rewrite Ha.
  pose proof (applyResponseInterceptors_world that res w1) as Hw.
  destruct (applyResponseInterceptors that res w1) as [r w2]. simpl in *. subst.
  rewrite Hplain.
  assert ((attempts >=? retries) = false) as ->; [|done].
  rewrite Z.geb_leb. apply Z.leb_gt. lia.
Qed.

Lemma for_each_complete_indep {A T} (l : list (T → Completion T)) :
  ∀ (x : T) (w w0 : A),
    for_each (fun i r => complete (i r)) l x w
    = ((for_each (fun i r => complete (i r)) l x w0).1, w).
Proof.
  induction l as [|i l IH]; intros x w w0; simpl; [done|].
  unfold bind. destruct (i x) as [y|e]; simpl; [|done]. apply IH.
Qed.

Lemma applyResponseInterceptors_indep that res w w0 :
  applyResponseInterceptors that res w = ((applyResponseInterceptors that res w0).1, w).
Proof.
  rewrite !applyResponseInterceptors_for_each. apply for_each_complete_indep.
Qed.

(** X17. A request whose first transport call fails with a plain error and whose
    second call answers, with a retry allowed, fulfils with the answer as
    the response interceptors return it: two transport calls, one wait of
    [retryDelay] between them, and the time of both calls and the wait on
    the clock. *)
Theorem request_succeeds_on_second_attempt
        (that : CommonRequest) (urlStr : string) (opts : RequestOptions) (w : World)
        (ctx : RequestContext) (lat0 lat1 : Z) (e0 : JsError)
        (res final : Response.t) :
  prepared that urlStr opts w ctx →
  direct (options ctx) →
  1 ≤ default 0 (retries (options ctx)) →
  (∀ resource init,
     fetch_behaviour (platform w) (fetch_calls (trace w)) resource init
     = (lat0, Rejects e0)) →
  (∀ resource init,
     fetch_behaviour (platform w) (S (fetch_calls (trace w))) resource init
     = (lat1, Resolves res)) →
  is_cancellation (Some e0) = false →
  user_fires_at (signal (reset_body (options ctx))) = None →
  (effective_timeout that (reset_body (options ctx)) = 0
   ∨ (0 < effective_timeout that (reset_body (options ctx))
      ∧ Z.max 0 lat0 ≤ effective_timeout that (reset_body (options ctx))
      ∧ Z.max 0 lat1 ≤ effective_timeout that (reset_body (options ctx)))) →
  (applyResponseInterceptors that res w).1 = Fulfilled final →
  ∃ w',
    request that urlStr opts w = (Fulfilled final, w')
    ∧ fetch_calls (trace w') = (fetch_calls (trace w) + 2)%nat
    ∧ delays (trace w') = S (delays (trace w))
    ∧ now w' = now w + Z.max 0 lat0
               + Z.max 0 (default 2000 (retryDelay (options ctx)))
               + Z.max 0 lat1.
Proof.
  intros Hprep Hdirect Hretries Hb0 Hb1 Hplain Hnever Hdeadline Hresp.
  rewrite (request_prepared _ _ _ _ _ Hprep), dispatch_direct by done.
  set (R := default 0 (retries (options ctx))) in *.
  set (D := default 2000 (retryDelay (options ctx))) in *.
  set (o := options ctx) in *.
  assert (Hnot : String.eqb (name e0) "AbortError" = false).
  { simpl in Hplain. by apply orb_false_iff in Hplain as [? _]. }
  assert (∃ f, enough_fuel R 0 = S (S f)) as [f ->].
  { unfold enough_fuel. exists (Z.to_nat (R - 1)).
    replace (R - 0 + 1) with (Z.succ (Z.succ (R - 1))) by lia.
    rewrite Z2Nat.inj_succ by lia. rewrite Z2Nat.inj_succ by lia. done. }
  (* the first attempt *)
  assert (Ha0 : attempt that (url ctx) o w
                = (Rejected (Some e0),
                   advance_to (now w + Z.max 0 lat0)
                     (log (EvFetch (url ctx)
                             (set_signal
                                (derived_signal (signal (reset_body o))
                                   (effective_timeout that (reset_body o)) (now w))
                                (reset_body o))) w))).
  { unfold attempt.
    rewrite (timeoutPromise_undisturbed _ _ _ _ _ lat0 (Rejects e0)); [done|by intros|  |].
    - split; [by rewrite Hnever|]. destruct Hdeadline as [->|(?&?&?)]; [by left|by right].
    - by intros e [= ->]. }
  rewrite (loop_retry that (url ctx) _ o R D 0 None w _ _ ltac:(lia) Ha0 Hplain).
  set (w1 := advance_to _ _) in *.
  set (w2 := (delay D w1).2).
  assert (Hcalls2 : fetch_calls (trace w2) = S (fetch_calls (trace w))).
  { unfold w2. rewrite delay_fetch_calls. unfold w1. simpl.
    rewrite fetch_calls_app. unfold fetch_calls at 2. simpl. lia. }
  assert (Ha1 : attempt that (url ctx) (reset_body o) w2
                = (Fulfilled res,
                   advance_to (now w2 + Z.max 0 lat1)
                     (log (EvFetch (url ctx)
                             (set_signal
                                (derived_signal (signal (reset_body o))
                                   (effective_timeout that (reset_body o)) (now w2))
                                (reset_body o))) w2))).
  { unfold attempt. rewrite reset_body_idem.
    rewrite (timeoutPromise_undisturbed _ _ _ _ _ lat1 (Resolves res)); [done| | |done].
    - intros init. rewrite Hcalls2. apply Hb1.
    - split; [by rewrite Hnever|]. destruct Hdeadline as [->|(?&?&?)]; [by left|by right]. }
  set (w3 := advance_to _ _) in Ha1.
  rewrite (loop_success that (url ctx) _ (reset_body o) R D (0 + 1) (Some e0) w2 _ _ final w3 ltac:(lia) Ha1).
  2:{ rewrite (applyResponseInterceptors_indep _ _ w3 w). by rewrite Hresp. }
  exists w3. split; [done|].
  unfold w3, w2, w1. simpl. rewrite !fetch_calls_app, !delays_app.
  unfold fetch_calls at 2 3 4, delays at 2 3 4. simpl.
  split_and!; lia.
Qed.

Lemma for_each_request_step_world ctx (l : list ReqInterceptor) :
  ∀ acc (w : World), (for_each (request_step ctx) l acc w).2 = w.
Proof.
  induction l as [|i l IH]; intros acc w; simpl; [done|].
  unfold bind, request_step, bind. destruct (i ctx) as [[r|]|e]; simpl; try done; apply IH.
Qed.

Lemma applyRequestInterceptors_world that ctx w :
  (applyRequestInterceptors that ctx w).2 = w.
Proof. rewrite applyRequestInterceptors_for_each. apply for_each_request_step_world. Qed.

(** X18. A request interceptor that throws rejects the request with what it
    threw, before anything is sent: no transport call, no wait. *)
Theorem request_interceptor_failure_stops_request
        (that : CommonRequest) (urlStr : string) (opts : RequestOptions) (w : World)
        (e : Thrown) :
  (applyRequestInterceptors that
     {| url := normalizeRequestOptionsUrl (platform w) urlStr opts;
        options := normalizeRequestOptions (platform w) (spread (defaults that) opts) |}
     w).1 = Rejected e →
  request that urlStr opts w = (Rejected e, w).
Proof.
  intros He. unfold request, bind.
  pose proof (applyRequestInterceptors_world that
    {| url := normalizeRequestOptionsUrl (platform w) urlStr opts;
       options := normalizeRequestOptions (platform w) (spread (defaults that) opts) |} w) as Hw.
  destruct (applyRequestInterceptors _ _ _) as [r w']. simpl in *. by subst.
Qed.

Lemma for_each_app {W S T} (fn : T → S → Task W S) (l1 l2 : list T) (acc : S) (w : W) :
  for_each fn (l1 ++ l2) acc w
  = bind (for_each fn l1 acc) (for_each fn l2) w.
Proof.
  revert acc w. induction l1 as [|x l1 IH]; intros acc w; simpl.
  - done.
  - unfold bind in *. destruct (fn x acc w) as [[a|e| |] w']; done.
Qed.

(** X19. The response chain ends at the first interceptor that throws: the
    interceptors registered before it (which come after it in the reverse
    order) are not run, and the chain rejects with what was thrown. *)
Theorem response_interceptor_failure_stops_chain
        (that : CommonRequest) (res : Response.t) (w : World)
        (later : list ResInterceptor) (i : ResInterceptor)
        (earlier : list ResInterceptor) (y : Response.t) (e : Thrown) :
  Registry.callbacks (interceptors_response that) = earlier ++ i :: later →
  (for_each (fun i r => complete (i r)) (rev later) res w).1 = Fulfilled y →
  i y = Throws e →
  applyResponseInterceptors that res w = (Rejected e, w).
Proof.
  intros Hcb Hlater Hi. rewrite applyResponseInterceptors_for_each, Hcb.
  rewrite rev_app_distr. simpl. rewrite <- app_assoc. simpl.
  rewrite for_each_app. unfold bind at 1.
  pose proof (for_each_complete_world (rev later) res w) as Hw.
  destruct (for_each (fun i r => complete (i r)) (rev later) res w) as [r w'].
  simpl in *. subst. unfold bind. by rewrite Hi.
Qed.

(** ** Downloads *)

Lemma read_progress_now cb total chunks : ∀ received w,
  now (read_progress cb total chunks received w).2 = now w.
Proof.
  induction chunks as [|value chunks IH]; intros received w; [done|].
  cbn [read_progress]. unfold bind, emit. by rewrite IH.
Qed.

Lemma received_after_cons value chunks k :
  received_after (value :: chunks) (S k)
  = Z.of_nat (length value) + received_after chunks k.
Proof.
  unfold received_after. simpl. rewrite length_app. lia.
Qed.

Lemma read_progress_reports cb total chunks : ∀ received w,
  trace (read_progress cb total chunks received w).2
  = trace w ++ map (fun k => download_report cb total
                               (received + received_after chunks (S k)))
                   (seq 0 (length chunks)).
Proof.
  induction chunks as [|value chunks IH]; intros received w.
  - simpl. by rewrite app_nil_r.
  - cbn [read_progress]. unfold bind, emit. rewrite IH. simpl.
    rewrite <- app_assoc. simpl. f_equal. f_equal.
    + unfold download_report. rewrite received_after_cons.
      unfold received_after. rewrite take_0. simpl. rewrite Z.add_0_r. done.
    + rewrite <- seq_shift, map_map. apply map_ext. intros k.
      rewrite (received_after_cons value chunks (S k)). f_equal. lia.
Qed.

Lemma download_follow_free options w latency :
  (∀ t, user_fires_at (signal options) = Some t →
        now w < t ∧ now w + Z.max 0 latency ≤ t) →
  ∀ t, fires_at (set_signal {| abortAt := follow (signal options) (now w) |} options)
       = Some t →
       now w < t ∧ now w + Z.max 0 latency ≤ t.
Proof.
  intros Hfree. unfold fires_at. rewrite signal_set_signal. simpl.
  unfold follow, user_fires_at, aborted in *.
  destruct (signal options) as [[[tu|]]|]; simpl; [|done..].
  destruct (Hfree tu eq_refl) as [H1 H2].
  rewrite (proj2 (Z.leb_gt _ _) H1). intros t [= <-]. lia.
Qed.

(** X20. A download that the transport answers with a successful response and a
    body, the caller not cancelling meanwhile, makes one report per chunk:
    [finished] is the number of bytes of the chunks read so far, [total]
    the [Content-Length] of the answer. It then fulfils with a response
    over the whole body, at the instant the transport answered, whatever
    the timeout of the options and of the instance. *)
Theorem download_reports_running_totals
        (url : string) (options : RequestOptions) (cb : ProgressCallback) (w : World)
        (latency : Z) (res : Response.t) (chunks : list (list byte)) :
  (∀ init, fetch_behaviour (platform w) (fetch_calls (trace w)) url init
           = (latency, Resolves res)) →
  (∀ t, user_fires_at (signal options) = Some t →
        now w < t ∧ now w + Z.max 0 latency ≤ t) →
  Response.body res = Some chunks →
  Response.ok res = true →
  (downloadWithProgress url options cb w).1 = Fulfilled (Response.of_stream chunks)
  ∧ (∃ init,
       trace (downloadWithProgress url options cb w).2
       = trace w ++ EvFetch url init
           :: map (fun k => download_report cb (content_length res)
                              (received_after chunks (S k)))
                  (seq 0 (length chunks)))
  ∧ now (downloadWithProgress url options cb w).2 = now w + Z.max 0 latency.
Proof.
  intros Hb Hfree Hbody Hok. unfold downloadWithProgress, bind, clock, try_catch.
  set (init := set_signal _ options).
  rewrite (fetch_settles _ _ _ latency (Resolves res) (Hb _))
    by (by apply download_follow_free).
  rewrite Hbody, Hok. unfold Response.tee.
  fold (content_length res).
  set (w1 := advance_to _ _).
  pose proof (read_progress_fulfilled cb (content_length res) chunks 0 w1) as Hr.
  pose proof (read_progress_reports cb (content_length res) chunks 0 w1) as Ht.
  pose proof (read_progress_now cb (content_length res) chunks 0 w1) as Hn.
  destruct (read_progress cb (content_length res) chunks 0 w1) as [[[]|e| |] w2];
    simpl in Hr; try done.
  simpl in *. split; [done|]. split.
  - exists init. rewrite Ht. rewrite <- app_assoc. simpl. do 2 f_equal.
  - rewrite Hn. lia.
Qed.

(** X21. A download that the transport answers with a response that is not
    successful, or has no body, rejects with [Error: HTTP error <status>]
    and reports no progress. *)
Theorem download_http_error
        (url : string) (options : RequestOptions) (cb : ProgressCallback) (w : World)
        (latency : Z) (res : Response.t) :
  (∀ init, fetch_behaviour (platform w) (fetch_calls (trace w)) url init
           = (latency, Resolves res)) →
  (∀ t, user_fires_at (signal options) = Some t →
        now w < t ∧ now w + Z.max 0 latency ≤ t) →
  Response.body res = None ∨ Response.ok res = false →
  (downloadWithProgress url options cb w).1
  = Rejected (Some (http_error (Response.status res)))
  ∧ ∃ init,
      trace (downloadWithProgress url options cb w).2 = trace w ++ [EvFetch url init].
Proof.
  intros Hb Hfree Hbad. unfold downloadWithProgress, bind, clock, try_catch.
  set (init := set_signal _ options).
  rewrite (fetch_settles _ _ _ latency (Resolves res) (Hb _))
    by (by apply download_follow_free).
  destruct Hbad as [Hnone|Hok].
  - rewrite Hnone. simpl. split; [done|]. by exists init.
  - destruct (Response.body res); rewrite ?Hok; simpl; (split; [done|]); by exists init.
Qed.

(** X22. A download whose transport call fails, the caller not cancelling
    meanwhile, rejects with the error of the transport; an [AbortError] of
    the transport itself is reported as a [TimeoutError], although a
    download has no deadline. *)
Theorem download_transport_failure
        (url : string) (options : RequestOptions) (cb : ProgressCallback) (w : World)
        (latency : Z) (e : JsError) :
  (∀ init, fetch_behaviour (platform w) (fetch_calls (trace w)) url init
           = (latency, Rejects e)) →
  (∀ t, user_fires_at (signal options) = Some t → now w + Z.max 0 latency < t) →
  (downloadWithProgress url options cb w).1
  = Rejected (Some (if String.eqb (name e) "AbortError" then timeout_error else e))
  ∧ ∃ init,
      trace (downloadWithProgress url options cb w).2 = trace w ++ [EvFetch url init].
Proof.
  intros Hb Hfree. unfold downloadWithProgress, bind, clock, try_catch.
  set (init := set_signal _ options).
  rewrite (fetch_settles _ _ _ latency (Rejects e) (Hb _)).
  2:{ apply download_follow_free. intros t Ht. specialize (Hfree t Ht). lia. }
  unfold rethrow_classified. destruct (String.eqb (name e) "AbortError").
  - unfold bind, clock. simpl.
    assert (match signal options with
            | Some s => aborted s (Z.max (now w) (now w + Z.max 0 latency))
            | None => false
            end = false) as ->.
    { unfold aborted, user_fires_at in *.
      destruct (signal options) as [[[tu|]]|]; simpl; [|done..].
      specialize (Hfree tu eq_refl). apply Z.leb_gt. lia. }
    simpl. split; [done|]. by exists init.
  - simpl. split; [done|]. by exists init.
Qed.

(** X23. A download that the caller cancels before the transport answers (or had
    cancelled before it started) rejects with the [AbortError] of a
    cancellation by the user, whatever the transport would have answered. *)
Theorem download_cancelled_by_caller
        (url : string) (options : RequestOptions) (cb : ProgressCallback) (w : World)
        (latency : Z) (result : FetchResult) (t : Z) :
  (∀ init, fetch_behaviour (platform w) (fetch_calls (trace w)) url init
           = (latency, result)) →
  user_fires_at (signal options) = Some t →
  t ≤ now w ∨ t < now w + Z.max 0 latency →
  (downloadWithProgress url options cb w).1 = Rejected (Some user_abort_error)
  ∧ now (downloadWithProgress url options cb w).2 = Z.max (now w) t
  ∧ ∃ init,
      trace (downloadWithProgress url options cb w).2 = trace w ++ [EvFetch url init].
Proof.
  intros Hb Hfire Hwhen. unfold downloadWithProgress, bind, clock, try_catch.
  set (init := set_signal _ options).
  unfold user_fires_at in Hfire.
  destruct (signal options) as [s|] eqn:Hs; [|done].
  destruct (decide (t ≤ now w)) as [Hle|Hgt].
  - rewrite (fetch_aborts _ _ _ latency result (now w) (Hb _)).
    + simpl. unfold bind, clock, aborted. simpl. rewrite Hfire.
      rewrite Z.max_id. rewrite (proj2 (Z.leb_le _ _) Hle). simpl.
      split; [done|]. split; [lia|]. by exists init.
    + unfold fires_at, init. rewrite signal_set_signal. simpl.
      unfold aborted. rewrite Hfire. by rewrite (proj2 (Z.leb_le _ _) Hle).
    + left. lia.
  - rewrite (fetch_aborts _ _ _ latency result t (Hb _)).
    + simpl. unfold bind, clock, aborted. simpl. rewrite Hfire.
      assert ((t <=? Z.max (now w) t) = true) as -> by (apply Z.leb_le; lia).
      simpl. split; [done|]. split; [lia|]. by exists init.
    + unfold fires_at, init. rewrite signal_set_signal. simpl.
      unfold aborted. rewrite Hfire.
      by rewrite (proj2 (Z.leb_gt t (now w)) ltac:(lia)).
    + right. lia.
Qed.

(** ** Uploads *)

Lemma upload_progress_fulfilled cb t0 endAt events : ∀ w,
  (upload_progress cb t0 endAt events w).1 = Fulfilled tt.
Proof.
  induction events as [|ev events IH]; intros w; [done|].
  cbn [upload_progress]. destruct (_ && _); [|apply IH].
  unfold bind, emit. apply IH.
Qed.

Lemma onreadystatechange_indep P c (w1 w2 : World) :
  (onreadystatechange P c w1).1 = (onreadystatechange P c w2).1.
Proof. unfold onreadystatechange. repeat case_match; done. Qed.

Lemma upload_progress_now cb t0 endAt events : ∀ w,
  now (upload_progress cb t0 endAt events w).2 = now w.
Proof.
  induction events as [|ev events IH]; intros w; [done|].
  cbn [upload_progress]. destruct (_ && _); [|apply IH].
  unfold bind, emit. by rewrite IH.
Qed.

(** The request [uploadWithProgress] hands to [send]. *)
Lemma upload_unfold that url options cb w hs :
  headers options = Some hs →
  let x := {| xhr_method := default "POST" (nonempty (method options));
              xhr_url := url;
              xhr_requestHeaders :=
                List.filter (fun kv => negb (String.eqb (fst kv) "body")) hs;
              xhr_body := body options;
              xhr_timeout := effective_timeout that options |} in
  let b := xhr_behaviour (platform w) (xhr_sends (trace w)) x in
  send_throws b = false →
  ∃ w2,
    now w2 = now w
    ∧ uploadWithProgress that url options cb w
      = match xhr_end (now w) x b (signal options) with
        | EndAbort t => (Rejected (Some user_abort_error), advance_to t w2)
        | EndTimeout t => (Rejected (Some timeout_error), advance_to t w2)
        | EndCompletion t => onreadystatechange (platform w) (completion b) (advance_to t w2)
        end.
Proof.
  intros Hhs x b Hsend. unfold uploadWithProgress. rewrite Hhs.
  fold (effective_timeout that options). fold x. fold b. rewrite Hsend.
  unfold bind.
  pose proof (upload_progress_fulfilled cb (now w)
                (xhr_end_at (xhr_end (now w) x b (signal options)))
                (upload_events b) (log (EvXhrSend x) w)) as Hf.
  pose proof (upload_progress_now cb (now w)
                (xhr_end_at (xhr_end (now w) x b (signal options)))
                (upload_events b) (log (EvXhrSend x) w)) as Hn.
  destruct (upload_progress _ _ _ _ _) as [[[]|e| |] w2]; simpl in Hf; try done.
  exists w2. split; [done|]. by destruct (xhr_end _ _ _ _).
Qed.

Lemma xhr_end_completion t0 x b :
  xhr_timeout x ≤ 0 ∨ Z.max 0 (xhr_latency b) ≤ xhr_timeout x →
  xhr_end t0 x b None = EndCompletion (t0 + Z.max 0 (xhr_latency b)).
Proof.
  intros H. unfold xhr_end. simpl.
  destruct (xhr_timeout x <=? 0) eqn:E; [done|].
  apply Z.leb_gt in E. destruct H as [H|H]; [lia|].
  by rewrite (proj2 (Z.ltb_ge (t0 + xhr_timeout x) (t0 + Z.max 0 (xhr_latency b)))
                ltac:(lia)).
Qed.

Lemma xhr_end_never t0 x b userSignal :
  user_fires_at userSignal = None →
  xhr_end t0 x b userSignal = xhr_end t0 x b None.
Proof.
  unfold user_fires_at, xhr_end, follow, aborted.
  destruct userSignal as [[[t|]]|]; done.
Qed.

Lemma upload_completes that url options cb w hs b :
  headers options = Some hs →
  (∀ x, xhr_behaviour (platform w) (xhr_sends (trace w)) x = b) →
  send_throws b = false →
  user_fires_at (signal options) = None →
  effective_timeout that options ≤ 0
  ∨ Z.max 0 (xhr_latency b) ≤ effective_timeout that options →
  (uploadWithProgress that url options cb w).1
  = (onreadystatechange (platform w) (completion b) w).1.
Proof.
  intros Hhs Hb Hsend Hsig Hdeadline.
  destruct (upload_unfold that url options cb w hs Hhs) as (w2 & _ & ->).
  { by rewrite Hb. }
  rewrite Hb.
  assert (∀ x, xhr_end (now w) x b (signal options) = xhr_end (now w) x b None) as ->.
  { intros x. by apply xhr_end_never. }
  rewrite xhr_end_completion by done.
  apply onreadystatechange_indep.
Qed.

(** X24. An upload that the server answers with a status other than 200, or
    with 200 and a text that is not JSON, never settles: the only handler
    of the completed exchange resolves on status 200 alone, and nothing
    rejects the promise. *)
Theorem upload_unsuccessful_answer_never_settles
        (that : CommonRequest) (url : string) (options : RequestOptions)
        (cb : ProgressCallback) (w : World) (hs : Headers) (b : XhrBehaviour)
        (status : Z) (statusText responseText allResponseHeaders : string) :
  headers options = Some hs →
  (∀ x, xhr_behaviour (platform w) (xhr_sends (trace w)) x = b) →
  send_throws b = false →
  user_fires_at (signal options) = None →
  effective_timeout that options ≤ 0
  ∨ Z.max 0 (xhr_latency b) ≤ effective_timeout that options →
  completion b = XhrLoad status statusText responseText allResponseHeaders →
  status ≠ 200 ∨ JSON_parse (platform w) responseText = None →
  (uploadWithProgress that url options cb w).1 = Pending.
Proof.
  intros Hhs Hb Hsend Hsig Hdeadline Hc Hbad.
  rewrite (upload_completes that url options cb w hs b) by done.
  rewrite Hc. simpl. destruct (status =? 200) eqn:E; [|done].
  apply Z.eqb_eq in E. destruct Hbad as [? | ->]; done.
Qed.

(** X25. An upload answered with status 200 and a JSON object fulfils with a
    text response carrying the parsed response headers: the text of the
    answer under status 200 [OK] when the object's [status] field is 200,
    and the text [[object Object]] under the transport's status text
    otherwise. *)
Theorem upload_answer
        (that : CommonRequest) (url : string) (options : RequestOptions)
        (cb : ProgressCallback) (w : World) (hs : Headers) (b : XhrBehaviour)
        (statusText responseText allResponseHeaders : string)
        (fields : list (string * JsValue)) :
  headers options = Some hs →
  (∀ x, xhr_behaviour (platform w) (xhr_sends (trace w)) x = b) →
  send_throws b = false →
  user_fires_at (signal options) = None →
  effective_timeout that options ≤ 0
  ∨ Z.max 0 (xhr_latency b) ≤ effective_timeout that options →
  completion b = XhrLoad 200 statusText responseText allResponseHeaders →
  JSON_parse (platform w) responseText = Some (JObject fields) →
  (uploadWithProgress that url options cb w).1
  = Fulfilled
      (match property "status" fields with
       | JNumber 200 =>
           Response.of_text responseText 200 "OK" (parseXHRHeaders allResponseHeaders)
       | _ =>
           Response.of_text "[object Object]" 200 statusText
             (parseXHRHeaders allResponseHeaders)
       end).
Proof.
  intros Hhs Hb Hsend Hsig Hdeadline Hc Hjson.
  rewrite (upload_completes that url options cb w hs b) by done.
  rewrite Hc. simpl. rewrite Hjson. repeat case_match; done.
Qed.

(** X26. An upload whose exchange outlasts the timeout in force (that of the
    options, or of the instance when the options give none or 0) rejects
    with a [TimeoutError] at the deadline. *)
Theorem upload_deadline
        (that : CommonRequest) (url : string) (options : RequestOptions)
        (cb : ProgressCallback) (w : World) (hs : Headers) (b : XhrBehaviour) :
  headers options = Some hs →
  (∀ x, xhr_behaviour (platform w) (xhr_sends (trace w)) x = b) →
  send_throws b = false →
  user_fires_at (signal options) = None →
  0 < effective_timeout that options →
  effective_timeout that options < xhr_latency b →
  (uploadWithProgress that url options cb w).1 = Rejected (Some timeout_error)
  ∧ now (uploadWithProgress that url options cb w).2
    = now w + effective_timeout that options.
Proof.
  intros Hhs Hb Hsend Hsig Hpos Hlate.
  destruct (upload_unfold that url options cb w hs Hhs) as (w2 & Hn & ->).
  { by rewrite Hb. }
  rewrite Hb.
  assert (∀ x, xhr_end (now w) x b (signal options) = xhr_end (now w) x b None) as ->.
  { intros x. by apply xhr_end_never. }
  unfold xhr_end. simpl.
  rewrite (proj2 (Z.leb_gt (effective_timeout that options) 0) Hpos).
  rewrite (proj2 (Z.ltb_lt (now w + effective_timeout that options)
                           (now w + Z.max 0 (xhr_latency b))) ltac:(lia)).
  simpl. split; [done|]. lia.
Qed.

(** X27. The two network failures of an upload carry different names: an
    exchange that ends in a network error rejects with a [NetworkError]
    "Network Error"; a [send] that throws rejects with an error named
    [TypeError], whatever was thrown: the "Network Error" the handler
    built when the [name] of the value thrown can be assigned, and the
    error of that assignment otherwise. *)
Theorem upload_network_failure_names
        (that : CommonRequest) (url : string) (options : RequestOptions)
        (cb : ProgressCallback) (w : World) (hs : Headers) (b : XhrBehaviour) :
  headers options = Some hs →
  (∀ x, xhr_behaviour (platform w) (xhr_sends (trace w)) x = b) →
  (send_throws b = true →
   ∃ e, (uploadWithProgress that url options cb w).1 = Rejected (Some e)
        ∧ name e = "TypeError"
        ∧ message e = default "Network Error" (name_assignment_fails b))
  ∧ (send_throws b = false →
     user_fires_at (signal options) = None →
     effective_timeout that options ≤ 0
     ∨ Z.max 0 (xhr_latency b) ≤ effective_timeout that options →
     completion b = XhrNetworkError →
     (uploadWithProgress that url options cb w).1
     = Rejected (Some {| name := "NetworkError"; message := "Network Error" |})).
Proof.
  intros Hhs Hb. split.
  - intros Hsend. unfold uploadWithProgress. rewrite Hhs, Hb, Hsend.
    destruct (name_assignment_fails b); eexists; split_and!; reflexivity.
  - intros Hsend Hsig Hdeadline Hc.
    rewrite (upload_completes that url options cb w hs b) by done.
    by rewrite Hc.
Qed.

(** ** The helpers *)

(** X28. A body is found replayable unless it is [true] or a number other than
    0: every object is, a [ReadableStream] included. *)
Theorem body_reusable_unless_truthy_primitive (v : JsValue) :
  (isBodyReusable v = false ↔ v = JBool true ∨ ∃ n, n ≠ 0 ∧ v = JNumber n)
  ∧ (typeof v = TObject → isBodyReusable v = true).
Proof.
  split.
  - destruct v as [| |[]|n| | | | | | | | |]; simpl; unfold isBodyReusable; simpl;
      try (split; [discriminate | intros [?|(?&?&?)]; discriminate]).
    + split; [by left|done].
    + destruct (n =? 0) eqn:E; simpl.
      * apply Z.eqb_eq in E. split; [done|]. intros [?|(m&?&[= <-])]; done.
      * apply Z.eqb_neq in E. split; [|done]. intros _. right. by exists n.
    + destruct (String.eqb s ""); simpl; split; try done; intros [?|(?&?&?)]; done.
  - by destruct v as [| |[]|n| | | | | | | | |].
Qed.

Lemma split_on_no_sep c s : has_char c s = false → split_on c s = [s].
Proof.
  induction s as [|a s IH]; simpl; [done|].
  intros H. apply orb_false_iff in H as [Ha Hs].
  rewrite Ha, (IH Hs). done.
Qed.

Lemma split_on_first c k v :
  has_char c k = false → split_on c (k +:+ String c v) = k :: split_on c v.
Proof.
  induction k as [|a k IH]; simpl.
  - intros _. by rewrite Ascii.eqb_refl.
  - intros H. apply orb_false_iff in H as [Ha Hk].
    rewrite Ha, (IH Hk). done.
Qed.

Lemma split_on_nonempty c s : split_on c s ≠ [].
Proof.
  destruct s as [|a s]; simpl; [done|].
  destruct (Ascii.eqb a c); [done|]. by destruct (split_on c s).
Qed.

Lemma join_split_on c s : join (String c "") (split_on c s) = s.
Proof.
  induction s as [|a s IH]; simpl; [done|].
  destruct (Ascii.eqb a c) eqn:E.
  - apply Ascii.eqb_eq in E. subst a.
    pose proof (split_on_nonempty c s) as Hne.
    destruct (split_on c s) as [|x xs]; [done|].
    simpl in *. by rewrite IH.
  - destruct (split_on c s) as [|x xs] eqn:Hs; [by destruct (split_on_nonempty c s)|].
    destruct xs as [|y ys]; simpl in *; by rewrite <- IH.
Qed.

Lemma has_char_app c a b : has_char c (a +:+ b) = has_char c a || has_char c b.
Proof.
  induction a as [|x a IH]; simpl; [done|]. by rewrite IH, orb_assoc.
Qed.

(** X29. A header line is split at its first colon: the name is the text before
    it and the value the text after it, further colons included, both
    trimmed. *)
Theorem header_line_splits_at_first_colon (key value : string) :
  key ≠ "" →
  has_char ":" key = false →
  has_char LF key = false →
  has_char LF value = false →
  parseXHRHeaders (key +:+ ":" +:+ value) = [(trim key, trim value)].
Proof.
  intros Hkey Hcolon Hk Hv. unfold parseXHRHeaders.
  assert ((key +:+ ":" +:+ value =? "")%string = false) as ->.
  { destruct key; [done|]. done. }
  unfold split_lines. rewrite split_on_no_sep.
  2:{ unfold LF in Hk, Hv. rewrite has_char_app, Hk. exact Hv. }
  simpl. change (":" +:+ value) with (String ":" value).
  rewrite split_on_first by done.
  rewrite (proj2 (String.eqb_neq key "") Hkey).
  by rewrite join_split_on.
Qed.

(** X30. The policy of a request: an option of the call wins over the defaults
    given to the constructor, which win over the built-in ones (no retry,
    2000 ms between attempts). A key that the call holds with the value
    [undefined] hides the defaults of the constructor as a value would, and
    the built-in values apply. A timeout of 0 falls back to the timeout of
    the instance, which the constructor sets to 5000 whatever defaults it
    is given. *)
Theorem request_policy_precedence (P : Platform) (dp opts : RequestOptions) :
  let that := constructor dp in
  let o := normalizeRequestOptions P (spread (defaults that) opts) in
  default 0 (retries o)
  = match retries opts with
    | Some r => r
    | None => if given_undefined "retries" opts then 0 else default 0 (retries dp)
    end
  ∧ default 2000 (retryDelay o)
    = match retryDelay opts with
      | Some d => d
      | None =>
          if given_undefined "retryDelay" opts then 2000
          else default 2000 (retryDelay dp)
      end
  ∧ effective_timeout that o
    = match timeout opts with
      | Some t => if t =? 0 then 5000 else t
      | None =>
          if given_undefined "timeout" opts then 5000
          else match timeout dp with
               | Some t => if t =? 0 then 5000 else t
               | None => 5000
               end
      end.
Proof.
  intros that o. unfold o.
  destruct (normalize_untouched P (spread (defaults that) opts))
    as (Ht & Hr & Hd & _).
  unfold effective_timeout. rewrite Ht, Hr, Hd. simpl. unfold spread_key.
  split_and!.
  - destruct (retries opts), (given_undefined "retries" opts), (retries dp),
      (given_undefined "retries" dp); done.
  - destruct (retryDelay opts), (given_undefined "retryDelay" opts), (retryDelay dp),
      (given_undefined "retryDelay" dp); done.
  - destruct (timeout opts), (given_undefined "timeout" opts), (timeout dp),
      (given_undefined "timeout" dp); done.
Qed.

(** On an instance built with [retries: 2], a call that passes
    [retries: undefined] makes one transport call, and a call that leaves
    [retries] out makes three. *)
Lemma undefined_retries_hide_the_default :
  let w := Scenario.start Scenario.failing in
  fetch_calls (trace (request Cases.retrying_twice "/x" Cases.retries_undefined w).2)
  = 1%nat
  ∧ fetch_calls (trace (request Cases.retrying_twice "/x" no_options w).2) = 3%nat.
Proof. vm_compute. split; reflexivity. Qed.

(** ** The further properties on concrete requests *)

Lemma normalize_keeps_given_content_type_witness :
  headers (normalizeRequestOptions Scenario.failing Scenario.post_a_1_json)
  = Some (normalizeHeaders (headers Scenario.post_a_1_json)).
Proof.
  apply normalize_keeps_given_content_type. left. vm_compute. discriminate.
Defined.

Lemma normalize_sets_detected_content_type_witness :
  ∃ h,
    headers (normalizeRequestOptions Scenario.failing Scenario.post_a_1) = Some h
    ∧ Headers_get h "Content-Type" = Some "application/json".
Proof.
  apply normalize_sets_detected_content_type; reflexivity.
Defined.

Lemma normalize_passes_body_through_witness :
  body (normalizeRequestOptions Scenario.failing Scenario.post_text) = JString "hi".
Proof.
  apply (normalize_passes_body_through Scenario.failing Scenario.post_text).
  right. vm_compute. discriminate.
Defined.

Lemma normalize_serialises_objects_witness :
  body (normalizeRequestOptions Scenario.failing Scenario.post_a_1_json)
  = JString ("{" +:+ dquote +:+ "a" +:+ dquote +:+ ":1}").
Proof.
  rewrite (normalize_serialises_objects_under_json Scenario.failing Scenario.post_a_1_json);
    reflexivity.
Defined.

(** A transport that aborts on its own, under the default deadline of
    5000 ms and with no caller's signal: the attempt reports a timeout. *)
Lemma transport_abort_witness :
  (timeoutPromise "/x" Cases.get_timeout_0 5000 None (Scenario.start Cases.aborting)).1
  = Rejected (Some timeout_error).
Proof.
  apply (transport_abort_is_reported_as_timeout "/x" Cases.get_timeout_0 5000 None
           (Scenario.start Cases.aborting) 10 fetch_abort_error).
  - intros init. reflexivity.
  - reflexivity.
  - right. split; [lia|]. vm_compute. discriminate.
  - intros t Ht. discriminate Ht.
Defined.

(** With every timeout at 0, a call that takes a minute is waited for. *)
Lemma no_deadline_witness :
  (attempt Cases.without_timeout "/x" Cases.get_timeout_0 (Scenario.start Cases.slow)).1
  = Fulfilled Scenario.response_200
  ∧ now (attempt Cases.without_timeout "/x" Cases.get_timeout_0
           (Scenario.start Cases.slow)).2 = 60000.
Proof.
  apply (no_deadline_when_timeouts_are_zero Cases.without_timeout "/x"
           Cases.get_timeout_0 (Scenario.start Cases.slow) 60000
           (Resolves Scenario.response_200)).
  - reflexivity.
  - right. reflexivity.
  - reflexivity.
  - intros init. reflexivity.
  - intros e He. discriminate He.
Defined.

Lemma negative_retries_witness :
  request commonRequest "/x" Cases.get_retries_minus_1 (Scenario.start Scenario.failing)
  = (Rejected None, Scenario.start Scenario.failing).
Proof.
  apply (negative_retries_reject_with_null commonRequest "/x" Cases.get_retries_minus_1
           (Scenario.start Scenario.failing)
           (Scenario.ctx_of Scenario.failing "/x" Cases.get_retries_minus_1)).
  - reflexivity.
  - split; reflexivity.
  - vm_compute. reflexivity.
Defined.

Lemma direct_request_attempts_witness :
  ∃ n : nat,
    fetch_calls (trace (request commonRequest "/x" Scenario.get_retries_2
                          (Scenario.start Scenario.failing)).2) = (0 + n)%nat
    ∧ (1 ≤ n ≤ 3)%nat
    ∧ delays (trace (request commonRequest "/x" Scenario.get_retries_2
                       (Scenario.start Scenario.failing)).2) = (0 + pred n)%nat.
Proof.
  destruct (direct_request_attempts_bounded commonRequest "/x" Scenario.get_retries_2
              (Scenario.start Scenario.failing)
              (Scenario.ctx_of Scenario.failing "/x" Scenario.get_retries_2))
    as (n & Hcalls & Hle & Hge & Hdelays & _).
  - reflexivity.
  - split; reflexivity.
  - exists n. split_and!; [exact Hcalls| |exact Hle|exact Hdelays].
    apply Hge. vm_compute. discriminate.
Defined.

(** A response interceptor that throws on a good answer makes the loop
    wait and try again. *)
Lemma response_interceptor_failure_witness :
  let o := options (Scenario.ctx_of Scenario.failing "/x" Scenario.get_retries_2) in
  let w := Scenario.start (Scenario.answering Scenario.response_200) in
  retryLoop 3 Cases.refusing "/x" o 2 50 0 None w
  = retryLoop 2 Cases.refusing "/x" (reset_body o) 2 50 (0 + 1) (Some Cases.refusal)
      (delay 50 (attempt Cases.refusing "/x" o w).2).2.
Proof.
  intros o w.
  apply (response_interceptor_failure_is_retried Cases.refusing "/x" o 2 2 50 0 None w
           Scenario.response_200 (attempt Cases.refusing "/x" o w).2
           (Some Cases.refusal)).
  - lia.
  - vm_compute. reflexivity.
  - reflexivity.
  - reflexivity.
Defined.

Lemma second_attempt_witness :
  ∃ w',
    request commonRequest "/x" Scenario.get_retries_2
      (Scenario.start (Cases.flaky Scenario.response_200))
    = (Fulfilled Scenario.response_200, w')
    ∧ fetch_calls (trace w') = 2%nat
    ∧ delays (trace w') = 1%nat
    ∧ now w' = 80.
Proof.
  destruct (request_succeeds_on_second_attempt commonRequest "/x" Scenario.get_retries_2
              (Scenario.start (Cases.flaky Scenario.response_200))
              (Scenario.ctx_of (Cases.flaky Scenario.response_200) "/x"
                 Scenario.get_retries_2)
              10 20 Scenario.network_error Scenario.response_200 Scenario.response_200)
    as (w' & Hreq & Hcalls & Hdelays & Hnow).
  - reflexivity.
  - split; reflexivity.
  - vm_compute. discriminate.
  - intros resource init. reflexivity.
  - intros resource init. reflexivity.
  - reflexivity.
  - reflexivity.
  - right. split_and!; vm_compute; (reflexivity || discriminate).
  - reflexivity.
  - exists w'. split_and!; [exact Hreq|exact Hcalls|exact Hdelays|exact Hnow].
Defined.

Lemma request_interceptor_failure_witness :
  request Cases.denying "/x" Scenario.get_retries_2 (Scenario.start Scenario.failing)
  = (Rejected (Some Cases.refusal), Scenario.start Scenario.failing).
Proof.
  apply request_interceptor_failure_stops_request. reflexivity.
Defined.

(** [refuse], registered last, runs first and throws: [mark_seen] is not
    run. *)
Lemma response_chain_witness :
  applyResponseInterceptors Cases.marking_then_refusing Scenario.response_200
    (Scenario.start Scenario.failing)
  = (Rejected (Some Cases.refusal), Scenario.start Scenario.failing).
Proof.
  apply (response_interceptor_failure_stops_chain Cases.marking_then_refusing
           Scenario.response_200 (Scenario.start Scenario.failing)
           [] Cases.refuse [Scenario.mark_seen] Scenario.response_200
           (Some Cases.refusal)); reflexivity.
Defined.

Lemma download_reports_witness :
  (downloadWithProgress "/f"
     (options (Scenario.ctx_of Scenario.failing "/f" Scenario.download)) 0%nat
     (Scenario.start (Scenario.answering Scenario.response_206))).1
  = Fulfilled (Response.of_stream [[x01; x02]; [x03]]).
Proof.
  apply (download_reports_running_totals "/f"
           (options (Scenario.ctx_of Scenario.failing "/f" Scenario.download)) 0%nat
           (Scenario.start (Scenario.answering Scenario.response_206))
           10 Scenario.response_206 [[x01; x02]; [x03]]).
  - intros init. reflexivity.
  - intros t Ht. discriminate Ht.
  - reflexivity.
  - reflexivity.
Defined.

Lemma download_http_error_witness :
  (downloadWithProgress "/f"
     (options (Scenario.ctx_of Scenario.failing "/f" Scenario.download)) 0%nat
     (Scenario.start (Scenario.answering Cases.response_404))).1
  = Rejected (Some (http_error 404)).
Proof.
  apply (download_http_error "/f"
           (options (Scenario.ctx_of Scenario.failing "/f" Scenario.download)) 0%nat
           (Scenario.start (Scenario.answering Cases.response_404))
           10 Cases.response_404).
  - intros init. reflexivity.
  - intros t Ht. discriminate Ht.
  - right. reflexivity.
Defined.

Lemma download_transport_failure_witness :
  (downloadWithProgress "/f"
     (options (Scenario.ctx_of Scenario.failing "/f" Scenario.download)) 0%nat
     (Scenario.start Cases.aborting)).1
  = Rejected (Some timeout_error).
Proof.
  apply (download_transport_failure "/f"
           (options (Scenario.ctx_of Scenario.failing "/f" Scenario.download)) 0%nat
           (Scenario.start Cases.aborting) 10 fetch_abort_error).
  - intros init. reflexivity.
  - intros t Ht. discriminate Ht.
Defined.

Lemma download_cancelled_witness :
  (downloadWithProgress "/f" Cases.download_cancelled_at_5 0%nat
     (Scenario.start (Scenario.answering Scenario.response_206))).1
  = Rejected (Some user_abort_error).
Proof.
  apply (download_cancelled_by_caller "/f" Cases.download_cancelled_at_5 0%nat
           (Scenario.start (Scenario.answering Scenario.response_206))
           10 (Resolves Scenario.response_206) 5).
  - intros init. reflexivity.
  - reflexivity.
  - right. vm_compute. reflexivity.
Defined.

Lemma upload_never_settles_witness :
  (uploadWithProgress commonRequest "/u" Cases.upload_options 0%nat
     (Scenario.start (Cases.uploading Cases.server_error))).1 = Pending.
Proof.
  apply (upload_unsuccessful_answer_never_settles commonRequest "/u"
           Cases.upload_options 0%nat
           (Scenario.start (Cases.uploading Cases.server_error))
           [("content-type", "text/plain;charset=UTF-8")] Cases.server_error
           500 "Internal Server Error" "" "").
  - reflexivity.
  - intros x. reflexivity.
  - reflexivity.
  - reflexivity.
  - right. vm_compute. discriminate.
  - reflexivity.
  - left. lia.
Defined.

Lemma upload_answer_witness :
  (uploadWithProgress commonRequest "/u" Cases.upload_options 0%nat
     (Scenario.start (Cases.uploading Cases.accepted))).1
  = Fulfilled (Response.of_text Cases.answer_text 200 "OK" [("X-Id", "7")])
  ∧ (uploadWithProgress commonRequest "/u" Cases.upload_options 0%nat
       (Scenario.start (Cases.uploading Cases.accepted_empty))).1
    = Fulfilled (Response.of_text "[object Object]" 200 "OK" [("X-Id", "7")]).
Proof.
  split.
  - apply (upload_answer commonRequest "/u" Cases.upload_options 0%nat
             (Scenario.start (Cases.uploading Cases.accepted))
             [("content-type", "text/plain;charset=UTF-8")] Cases.accepted
             "OK" Cases.answer_text "X-Id: 7" [("status", JNumber 200)]).
    + reflexivity.
    + intros x. reflexivity.
    + reflexivity.
    + reflexivity.
    + right. vm_compute. discriminate.
    + reflexivity.
    + reflexivity.
  - apply (upload_answer commonRequest "/u" Cases.upload_options 0%nat
             (Scenario.start (Cases.uploading Cases.accepted_empty))
             [("content-type", "text/plain;charset=UTF-8")] Cases.accepted_empty
             "OK" "{}" "X-Id: 7" []).
    + reflexivity.
    + intros x. reflexivity.
    + reflexivity.
    + reflexivity.
    + right. vm_compute. discriminate.
    + reflexivity.
    + reflexivity.
Defined.

Lemma upload_deadline_witness :
  (uploadWithProgress commonRequest "/u" Cases.upload_options 0%nat
     (Scenario.start (Cases.uploading Cases.stalled))).1
  = Rejected (Some timeout_error)
  ∧ now (uploadWithProgress commonRequest "/u" Cases.upload_options 0%nat
           (Scenario.start (Cases.uploading Cases.stalled))).2 = 5000.
Proof.
  apply (upload_deadline commonRequest "/u" Cases.upload_options 0%nat
           (Scenario.start (Cases.uploading Cases.stalled))
           [("content-type", "text/plain;charset=UTF-8")] Cases.stalled).
  - reflexivity.
  - intros x. reflexivity.
  - reflexivity.
  - reflexivity.
  - vm_compute. reflexivity.
  - vm_compute. reflexivity.
Defined.

Lemma upload_network_failure_witness :
  (uploadWithProgress commonRequest "/u" Cases.upload_options 0%nat
     (Scenario.start (Cases.uploading Cases.unreachable))).1
  = Rejected (Some {| name := "NetworkError"; message := "Network Error" |})
  ∧ ∃ e,
      (uploadWithProgress commonRequest "/u" Cases.upload_options 0%nat
         (Scenario.start (Cases.uploading Cases.refused_send))).1
      = Rejected (Some e)
      ∧ name e = "TypeError"
      ∧ message e
        = "Cannot set property name of #<DOMException> which has only a getter".
Proof.
  split.
  - destruct (upload_network_failure_names commonRequest "/u" Cases.upload_options 0%nat
                (Scenario.start (Cases.uploading Cases.unreachable))
                [("content-type", "text/plain;charset=UTF-8")] Cases.unreachable)
      as [_ H].
    + reflexivity.
    + intros x. reflexivity.
    + apply H.
      * reflexivity.
      * reflexivity.
      * right. vm_compute. discriminate.
      * reflexivity.
  - destruct (upload_network_failure_names commonRequest "/u" Cases.upload_options 0%nat
                (Scenario.start (Cases.uploading Cases.refused_send))
                [("content-type", "text/plain;charset=UTF-8")] Cases.refused_send)
      as [H _].
    + reflexivity.
    + intros x. reflexivity.
    + destruct (H eq_refl) as (e & He & Hname & Hmessage).
      exists e. split_and!; [exact He|exact Hname|exact Hmessage].
Defined.

Lemma header_line_witness :
  parseXHRHeaders ("Date" +:+ ":" +:+ " Tue, 12:30:00 GMT")
  = [(trim "Date", trim " Tue, 12:30:00 GMT")].
Proof.
  apply header_line_splits_at_first_colon; [discriminate|reflexivity..].
Defined.
